(** * Flight-Route: the multi-objective route scoring core of [atc.py]

    A shallow embedding of the functions of [atc.py] that work on the graph
    ([build_air_route_graph], [dijkstra_multi_objective],
    [simulate_weather_conditions], [analyze_path], and of the window the
    loading and [find_route]) together with the parts of pandas and networkx
    they rest on (the typing of the cells of a table and [iterrows], the
    insertion-ordered [DiGraph] store and [all_simple_paths]), followed by the
    properties the specification states about them.

    The code keeps the cells of the tables as pandas hands them over, so a
    number is a numpy [int64], whose sums wrap around, or a binary64 float,
    which is modelled by Rocq's primitive floats: the same values with the
    same rounding. *)

From Stdlib Require Import String ZArith List Bool Lia Floats.
Import ListNotations.

#[local] Set Warnings "-inexact-float".

(** ** Python outcomes *)

(** The exceptions that the code can meet. *)
Inductive exn : Type :=
| KeyError
| ZeroDivisionError
| NodeNotFound
| NetworkXNoPath
| ValueError
| OverflowError
| IndexError
| TypeError.

(** A call either returns a value or raises. *)
Inductive outcome (A : Type) : Type :=
| Returns (a : A)
| Raises (e : exn).

Arguments Returns {A} a.
Arguments Raises {A} e.

Definition bind {A B : Type} (m : outcome A) (k : A -> outcome B) : outcome B :=
  match m with
  | Returns a => k a
  | Raises e => Raises e
  end.

Notation "x <- m ;; k" := (bind m (fun x => k))
  (at level 61, m at next level, right associativity).

Definition raised {A : Type} (m : outcome A) : bool :=
  match m with
  | Returns _ => false
  | Raises _ => true
  end.

(** A [for] loop whose body may raise: the state is threaded through the
    elements in order and the first exception ends the loop. *)
Fixpoint for_each {A S : Type} (body : S -> A -> outcome S) (l : list A) (s : S)
  : outcome S :=
  match l with
  | [] => Returns s
  | a :: l' => s' <- body s a ;; for_each body l' s'
  end.

(** ** Numbers

    A number of the tables, of the graph and of the sums: a numpy [int64]
    ([I z] with [z] from [-2^63] to [2^63 - 1]; the Python integer [0] that
    starts a sum is written [I 0]: adding an [int64] to it gives that
    [int64]) or a binary64 float. *)

Inductive num : Type :=
| I (z : Z)
| F (f : float).

(** The value of a Python integer as a float. *)
Definition float_of_Z (z : Z) : float :=
  if (z <? 0)%Z then (- of_uint63 (Uint63.of_Z (- z)))%float
  else of_uint63 (Uint63.of_Z z).

(** The result of an [int64] operation: the integer modulo [2^64], taken
    between [-2^63] and [2^63 - 1]. *)
Definition wrap64 (z : Z) : Z := ((z + 2 ^ 63) mod 2 ^ 64 - 2 ^ 63)%Z.

(** An [int64] as a float, rounded to the nearest. *)
Definition float_of_int64 (z : Z) : float :=
  if (z =? - 2 ^ 63)%Z then (-9223372036854775808)%float else float_of_Z z.

(** The float that takes part in an operation with a float. *)
Definition to_float (x : num) : float :=
  match x with
  | I z => float_of_int64 z
  | F f => f
  end.

(** [x + y]: two [int64] add up to an [int64], with wrap-around; in every
    other case the sum is the float sum. *)
Definition num_add (x y : num) : num :=
  match x, y with
  | I a, I b => I (wrap64 (a + b))
  | _, _ => F (to_float x + to_float y)
  end.

(** [int(f)] for a float: the integer part, a [ValueError] for NaN and an
    [OverflowError] for an infinity. *)
Definition int_of_float (f : float) : outcome Z :=
  match Prim2SF f with
  | S754_nan => Raises ValueError
  | S754_infinity _ => Raises OverflowError
  | S754_zero _ => Returns 0%Z
  | S754_finite s m e =>
      let a := (if 0 <=? e then Z.pos m * 2 ^ e else Z.pos m / 2 ^ (- e))%Z in
      Returns (if s then (- a)%Z else a)
  end.

(** [int(x)] *)
Definition py_int (x : num) : outcome Z :=
  match x with
  | I z => Returns z
  | F f => int_of_float f
  end.

Definition is_int (x : num) : bool :=
  match x with
  | I _ => true
  | F _ => false
  end.

(** A number held in a float column or in a float row. *)
Definition upcast (x : num) : num := F (to_float x).

(** ** Insertion-ordered dictionaries

    Python dictionaries keep their keys in insertion order, and both the
    enumeration order of paths and the order in which the weather pass draws
    random numbers depend on it, so a dictionary keyed by node ids is an
    association list without repeated keys. *)

Definition node : Type := Z.
Bind Scope Z_scope with node.

Definition dict (V : Type) : Type := list (node * V).

Fixpoint dict_get {V : Type} (k : node) (d : dict V) : option V :=
  match d with
  | [] => None
  | (k', v) :: d' => if Z.eqb k k' then Some v else dict_get k d'
  end.

Definition dict_mem {V : Type} (k : node) (d : dict V) : bool :=
  match dict_get k d with
  | Some _ => true
  | None => false
  end.

(** [d[k] = v]: an existing key keeps its place, a new key goes last. *)
Fixpoint dict_set {V : Type} (k : node) (v : V) (d : dict V) : dict V :=
  match d with
  | [] => [(k, v)]
  | (k', v') :: d' =>
      if Z.eqb k k' then (k', v) :: d' else (k', v') :: dict_set k v d'
  end.

Definition dict_keys {V : Type} (d : dict V) : list node := map fst d.

(** ** The graph store (networkx [DiGraph]) *)

(** The four cost attributes of an edge, under the keys the code uses. *)
Record edge_data : Type := mk_edge_data {
  weight : num;
  duration : num;
  fuel : num;
  congestion : num
}.

(** The name cell of an airport: a text, or NaN where the cell is empty. *)
Inductive name_cell : Type :=
| Name (s : string)
| NoName.

(** The attributes [add_node] is given in [build_air_route_graph]. *)
Record node_data : Type := mk_node_data {
  name : name_cell;
  pos : num * num
}.

(** [node_attr] is networkx's [_node] (a node added implicitly by [add_edge]
    has an empty attribute dictionary, [None] here) and [adj] is its [_adj]:
    for each node the dictionary of its successors with the edge data. *)
Record DiGraph : Type := mk_DiGraph {
  node_attr : dict (option node_data);
  adj : dict (dict edge_data)
}.

Definition empty_graph : DiGraph := mk_DiGraph [] [].

(** [n in G] *)
Definition has_node (G : DiGraph) (n : node) : bool := dict_mem n (node_attr G).

(** [len(G)] *)
Definition number_of_nodes (G : DiGraph) : nat := length (node_attr G).

(** [G.add_node(n, name=..., pos=...)]: a node that is not yet in the
    adjacency gets an empty successor dictionary and the attributes given; a
    node that is already there only has its attributes updated. *)
Definition add_node (G : DiGraph) (n : node) (a : node_data) : DiGraph :=
  if dict_mem n (adj G)
  then mk_DiGraph (dict_set n (Some a) (node_attr G)) (adj G)
  else mk_DiGraph (dict_set n (Some a) (node_attr G)) (dict_set n [] (adj G)).

(** The start of [add_edge]: an endpoint that is not yet in the graph is added
    with no attributes. *)
Definition ensure_node (G : DiGraph) (n : node) : DiGraph :=
  if dict_mem n (adj G)
  then G
  else mk_DiGraph (dict_set n None (node_attr G)) (dict_set n [] (adj G)).

(** [G.add_edge(u, v, weight=..., duration=..., fuel=..., congestion=...)]:
    all four keys are given, so updating the data of an edge that is already
    there replaces all four values. *)
Definition add_edge (G : DiGraph) (u v : node) (d : edge_data) : DiGraph :=
  let G1 := ensure_node (ensure_node G u) v in
  let nbrs := match dict_get u (adj G1) with Some nbrs => nbrs | None => [] end in
  mk_DiGraph (node_attr G1) (dict_set u (dict_set v d nbrs) (adj G1)).

(** [graph[u][v]]: a [KeyError] when [u] is not a node or [v] is not one of
    its successors. *)
Definition get_edge (G : DiGraph) (u v : node) : outcome edge_data :=
  match dict_get u (adj G) with
  | None => Raises KeyError
  | Some nbrs =>
      match dict_get v nbrs with
      | None => Raises KeyError
      | Some d => Returns d
      end
  end.

(** The heads of the out-edges of [u], in adjacency order ([G.edges(u)]).  In
    a [DiGraph] every successor is itself a node, so the lookup is always
    defined where the enumeration uses it. *)
Definition successors (G : DiGraph) (u : node) : list node :=
  match dict_get u (adj G) with
  | Some nbrs => dict_keys nbrs
  | None => []
  end.

(** ** The tables

    A table is the list of its rows, each cell as [pandas.read_csv] has
    typed it (reading the files is outside the core): a number cell is an
    integer or a float, a name cell a text or NaN.  pandas types by column: a
    number column is [int64] when all its cells are integers and [float64]
    otherwise, an integer of a float column being held as the nearest float.
    [iterrows] then gives every row one type: a row of numbers only is a row
    of [int64] when all its columns are, and a row of floats otherwise; a row
    with a text column keeps the type of each column. *)

Record airport_row : Type := mk_airport_row {
  a_id : num;
  a_name : name_cell;
  a_lat : num;
  a_lon : num
}.

Record route_row : Type := mk_route_row {
  r_from : num;
  r_to : num;
  r_distance_km : num;
  r_avg_duration_min : num;
  r_fuel_cost_l : num;
  r_congestion_factor : num
}.

(** The value of a cell of a column, given whether the column is [int64]. *)
Definition in_column (int_column : bool) (x : num) : num :=
  if int_column then x else upcast x.

Definition has_name (row : airport_row) : bool :=
  match a_name row with
  | Name _ => true
  | NoName => false
  end.

(** The id of a row as the id column holds it (text columns apart, a column
    is [int64] when all its cells are integers). *)
Definition id_cell (airports : list airport_row) (row : airport_row) : num :=
  in_column (forallb (fun r => is_int (a_id r)) airports) (a_id row).

(** [airports.iterrows()]: with a text among the names the rows keep the
    type of each column; without one the name column is a float column (of
    NaN) and the rows are rows of floats. *)
Definition airports_iterrows (airports : list airport_row) : list airport_row :=
  if existsb has_name airports then
    map (fun row =>
           mk_airport_row
             (id_cell airports row) (a_name row)
             (in_column (forallb (fun r => is_int (a_lat r)) airports) (a_lat row))
             (in_column (forallb (fun r => is_int (a_lon r)) airports) (a_lon row)))
        airports
  else
    map (fun row =>
           mk_airport_row (upcast (a_id row)) NoName (upcast (a_lat row)) (upcast (a_lon row)))
        airports.

Definition int_row (row : route_row) : bool :=
  is_int (r_from row) && is_int (r_to row) && is_int (r_distance_km row) &&
  is_int (r_avg_duration_min row) && is_int (r_fuel_cost_l row) &&
  is_int (r_congestion_factor row).

Definition upcast_row (row : route_row) : route_row :=
  mk_route_row (upcast (r_from row)) (upcast (r_to row)) (upcast (r_distance_km row))
               (upcast (r_avg_duration_min row)) (upcast (r_fuel_cost_l row))
               (upcast (r_congestion_factor row)).

(** [routes.iterrows()]: rows of [int64] when every cell of the table is an
    integer, rows of floats otherwise. *)
Definition routes_iterrows (routes : list route_row) : list route_row :=
  if forallb int_row routes then routes else map upcast_row routes.

(** ** Loading the graph *)

Definition airport_data (row : airport_row) : node_data :=
  mk_node_data (a_name row) (a_lat row, a_lon row).

Definition route_data (row : route_row) : edge_data :=
  mk_edge_data (r_distance_km row) (r_avg_duration_min row)
               (r_fuel_cost_l row) (r_congestion_factor row).

(** One turn of the first loop: [G.add_node(int(row['id']), ...)]. *)
Definition add_airport (G : DiGraph) (row : airport_row) : outcome DiGraph :=
  n <- py_int (a_id row) ;;
  Returns (add_node G n (airport_data row)).

(** One turn of the second loop:
    [G.add_edge(int(row['from']), int(row['to']), ...)]. *)
Definition add_route (G : DiGraph) (row : route_row) : outcome DiGraph :=
  u <- py_int (r_from row) ;;
  v <- py_int (r_to row) ;;
  Returns (add_edge G u v (route_data row)).

(** [build_air_route_graph]: every airport row is added as a node, then every
    route row as an edge; the airports table is returned with the graph. *)
Definition build_air_route_graph (airports : list airport_row) (routes : list route_row)
  : outcome (DiGraph * list airport_row) :=
  G <- for_each add_airport (airports_iterrows airports) empty_graph ;;
  G <- for_each add_route (routes_iterrows routes) G ;;
  Returns (G, airports).

(** The graph of two tables that load. *)
Definition graph_of (airports : list airport_row) (routes : list route_row) : DiGraph :=
  match build_air_route_graph airports routes with
  | Returns built => fst built
  | Raises _ => empty_graph
  end.

(** ** Enumerating simple paths (networkx [all_simple_paths]) *)

Definition path : Type := list node.

Definition on_path (v : node) (p : path) : bool := existsb (Z.eqb v) p.

(** networkx is not part of the repository; its enumeration is modelled here
    as networkx 3 has it (a request with [source == target] yields the
    single-node path; networkx 2 yields nothing there, and is the same
    otherwise).

    The depth-first search, for one target.  [next_node] has just
    been taken from an edge iterator and is not on [current_path].  It is
    yielded as the end of a path when it is the target; the search goes on
    through it when it is not the target and the path is still shorter than
    the cutoff.  [budget] is what is left of the cutoff: [cutoff] minus the
    number of nodes on [current_path]. *)
Fixpoint simple_paths_from (G : DiGraph) (target : node) (budget : nat)
    (current_path : path) (next_node : node) : list path :=
  (if Z.eqb next_node target then [current_path ++ [next_node]] else [])
  ++
  match budget with
  | O => []
  | S budget' =>
      if Z.eqb next_node target then []
      else
        flat_map
          (fun v =>
             if on_path v (current_path ++ [next_node]) then []
             else simple_paths_from G target budget' (current_path ++ [next_node]) v)
          (successors G next_node)
  end.

(** [list(nx.all_simple_paths(graph, source, target))]: a missing source or
    target raises [NodeNotFound]; the cutoff defaults to [len(G) - 1]. *)
Definition all_simple_paths (G : DiGraph) (source target : node) : outcome (list path) :=
  if negb (has_node G source) then Raises NodeNotFound
  else if negb (has_node G target) then Raises NodeNotFound
  else Returns (simple_paths_from G target (number_of_nodes G - 1) [] source).

(** ** Costs along a path, as the specification words them

    The consecutive pairs of a path, the data of the edges along it, and the
    sum of one attribute over them: a left-to-right sum from [0], which is the
    order in which a Python loop accumulates, in the arithmetic of the cells.
    The loops of the code go by index instead; the theorems below relate the
    two. *)

Definition steps (p : list node) : list (node * node) := combine p (tl p).

Fixpoint collect {A B : Type} (f : A -> outcome B) (l : list A) : outcome (list B) :=
  match l with
  | [] => Returns []
  | a :: l' => b <- f a ;; bs <- collect f l' ;; Returns (b :: bs)
  end.

Definition edges_along (G : DiGraph) (p : list node) : outcome (list edge_data) :=
  collect (fun uv => get_edge G (fst uv) (snd uv)) (steps p).

Definition sum_of (f : edge_data -> num) (es : list edge_data) : num :=
  fold_left (fun acc e => num_add acc (f e)) es (I 0).

(** ** The multi-objective optimizer *)

(** The weights are Python floats: [find_route] reads them with [float]. *)
Record weight_vector : Type := mk_weights {
  w_distance : float;
  w_duration : float;
  w_fuel : float;
  w_congestion : float
}.

(** The dictionary [total] of the scoring loop. *)
Record totals : Type := mk_totals {
  t_distance : num;
  t_duration : num;
  t_fuel : num;
  t_congestion : num
}.

Definition zero_totals : totals := mk_totals (I 0) (I 0) (I 0) (I 0).

(** [path[i]] for an index the loop has in range. *)
Definition item (p : path) (i : nat) : node := nth i p 0%Z.

(** One turn of the inner loop of [dijkstra_multi_objective]. *)
Definition add_edge_costs (G : DiGraph) (p : path) (total : totals) (i : nat)
  : outcome totals :=
  edge <- get_edge G (item p i) (item p (i + 1)) ;;
  Returns (mk_totals (num_add (t_distance total) (weight edge))
                     (num_add (t_duration total) (duration edge))
                     (num_add (t_fuel total) (fuel edge))
                     (num_add (t_congestion total) (congestion edge))).

(** The inner loop: [for i in range(len(path) - 1)]. *)
Definition path_totals (G : DiGraph) (p : path) : outcome totals :=
  for_each (add_edge_costs G p) (seq 0 (length p - 1)) zero_totals.

(** The score: a float weight times a total is a float product. *)
Definition weighted_sum (w : weight_vector) (total : totals) : float :=
  (w_distance w * to_float (t_distance total) +
   w_duration w * to_float (t_duration total) +
   w_fuel w * to_float (t_fuel total) +
   w_congestion w * to_float (t_congestion total))%float.

Definition path_score (G : DiGraph) (w : weight_vector) (p : path) : outcome float :=
  total <- path_totals G p ;;
  Returns (weighted_sum w total).

(** One turn of the outer loop on the pair [(best_path, best_score)]. *)
Definition consider (G : DiGraph) (w : weight_vector)
    (best : option path * float) (p : path) : outcome (option path * float) :=
  score <- path_score G w p ;;
  Returns (if (score <? snd best)%float then (Some p, score) else best).

Definition select_best (G : DiGraph) (w : weight_vector) (paths : list path)
  : outcome (option path * float) :=
  for_each (consider G w) paths (None, infinity).

(** [dijkstra_multi_objective]: only [NetworkXNoPath] is caught around the
    enumeration; any other exception goes through. *)
Definition dijkstra_multi_objective (G : DiGraph) (start end_ : node) (w : weight_vector)
  : outcome (option path * float) :=
  match all_simple_paths G start end_ with
  | Raises NetworkXNoPath => Returns (None, infinity)
  | Raises e => Raises e
  | Returns paths => select_best G w paths
  end.

(** ** Performance analysis *)

Record metrics : Type := mk_metrics {
  total_distance_km : num;
  flight_duration_min : num;
  fuel_consumed_l : num;
  avg_congestion : float
}.

(** One turn of the loop of [analyze_path] on its four local variables
    [(distance, duration, fuel, congestion)]. *)
Definition add_edge_metrics (G : DiGraph) (p : path)
    (acc : num * num * num * num) (i : nat)
  : outcome (num * num * num * num) :=
  let '(distance, duration_, fuel_, congestion_) := acc in
  edge <- get_edge G (item p i) (item p (i + 1)) ;;
  Returns (num_add distance (weight edge), num_add duration_ (duration edge),
           num_add fuel_ (fuel edge), num_add congestion_ (congestion edge)).

Definition analyze_sums (G : DiGraph) (p : path)
  : outcome (num * num * num * num) :=
  for_each (add_edge_metrics G p) (seq 0 (length p - 1)) (I 0, I 0, I 0, I 0).

(** [congestion / (len(path) - 1)]: a true division, which gives a float.
    The divisor is zero for the path of one node only; the sum is then the
    Python integer [0] it started as, and Python raises. *)
Definition py_div (x : num) (n : Z) : outcome float :=
  if (n =? 0)%Z then Raises ZeroDivisionError
  else Returns (to_float x / float_of_Z n)%float.

Definition analyze_path (G : DiGraph) (p : path) : outcome metrics :=
  sums <- analyze_sums G p ;;
  let '(distance, duration_, fuel_, congestion_) := sums in
  avg <- py_div congestion_ (Z.of_nat (length p) - 1) ;;
  Returns (mk_metrics distance duration_ fuel_ avg).

(** ** Weather simulation *)

Section Weather.

(** The state of the generator behind the module-level functions of
    [random], and [random.random()] as a step on it: the next float of
    [0, 1) and the state after the draw.  [simulate_weather_conditions] has
    no parameter for it: it reads and advances the one generator of the
    process. *)
Variable rng : Type.
Variable random : rng -> float * rng.

(** [random.uniform(a, b)] is [a + (b - a) * random()]. *)
Definition uniform (a b : float) (g : rng) : float * rng :=
  let (r, g') := random g in ((a + (b - a) * r)%float, g').

(** The body of the loop, on the data dictionary of one edge: adding a
    Python float to a number gives a float. *)
Definition perturb_edge (d : edge_data) (g : rng) : edge_data * rng :=
  let (weather_delay, g1) := uniform 0 20 g in
  let (extra, g2) := uniform 0 0.2 g1 in
  (mk_edge_data (weight d) (F (to_float (duration d) + weather_delay)) (fuel d)
                (F (to_float (congestion d) + extra)), g2).

(** A pass over a dictionary in its order, with the generator threaded
    through. *)
Fixpoint dict_map_rng {V : Type} (f : V -> rng -> V * rng) (d : dict V) (g : rng)
  : dict V * rng :=
  match d with
  | [] => ([], g)
  | (k, v) :: d' =>
      let (v', g1) := f v g in
      let (d'', g2) := dict_map_rng f d' g1 in
      ((k, v') :: d'', g2)
  end.

(** [simulate_weather_conditions]: [route_graph.edges(data=True)] goes
    through the nodes in order and, for each, through its successors in
    order; the data dictionaries are updated in place.  The result is the
    graph after the call and the generator after the call. *)
Definition simulate_weather_conditions (route_graph : DiGraph) (g : rng)
  : DiGraph * rng :=
  let (adj', g') := dict_map_rng (dict_map_rng perturb_edge) (adj route_graph) g in
  (mk_DiGraph (node_attr route_graph) adj', g').

(** The first [n] draws of the generator from state [g]. *)
Fixpoint draws (n : nat) (g : rng) : list float :=
  match n with
  | O => []
  | S n' => let (r, g') := random g in r :: draws n' g'
  end.

(** The state of the generator after [n] draws. *)
Fixpoint advance (n : nat) (g : rng) : rng :=
  match n with
  | O => g
  | S n' => advance n' (snd (random g))
  end.

End Weather.

Arguments uniform {rng} random a b g.
Arguments perturb_edge {rng} random d g.
Arguments dict_map_rng {rng V} f d g.
Arguments simulate_weather_conditions {rng} random route_graph g.
Arguments draws {rng} random n g.
Arguments advance {rng} random n g.

(** The edges of a graph with their data, in the order in which
    [edges(data=True)] yields them. *)
Definition edge_list (G : DiGraph) : list (node * node * edge_data) :=
  flat_map (fun entry => map (fun nbr => (fst entry, fst nbr, snd nbr)) (snd entry)) (adj G).

Definition number_of_edges (G : DiGraph) : nat := length (edge_list G).

(** The successors of every node, without the edge data: the shape of the
    graph. *)
Definition adjacency (G : DiGraph) : list (node * list node) :=
  map (fun entry => (fst entry, dict_keys (snd entry))) (adj G).

(** The weather pass as the specification words it, on the list of edges and
    a list of numbers drawn from [0, 1): each edge takes the next two
    numbers, [r1] for its duration and [r2] for its congestion. *)
Fixpoint perturbed (rs : list float) (es : list (node * node * edge_data))
  : list (node * node * edge_data) :=
  match es, rs with
  | (u, v, d) :: es', r1 :: r2 :: rs' =>
      (u, v, mk_edge_data (weight d) (F (to_float (duration d) + (0 + (20 - 0) * r1))) (fuel d)
                          (F (to_float (congestion d) + (0 + (0.2 - 0) * r2))))%float
      :: perturbed rs' es'
  | _, _ => []
  end.

(** What the weather pass is to leave alone on an edge: its endpoints, its
    distance and its fuel. *)
Definition frame (e : node * node * edge_data) : node * node * num * num :=
  (fst (fst e), snd (fst e), weight (snd e), fuel (snd e)).

(** A generator for examples: the draws are read off a list, and an exhausted
    list keeps giving [0]. *)
Definition tape_random (g : list float) : float * list float :=
  match g with
  | [] => (0%float, [])
  | r :: g' => (r, g')
  end.

(** ** The window: loading and the route request

    Of [AirTrafficGUI] the widgets, the background image and the layout are
    left out; what is kept is what its methods do with the core.  The texts
    read from the widgets are arguments, and what the request puts on the
    screen is its result. *)

(** The part of [__init__] on the core: the graph is built from the two
    tables and the weather pass is run on it, once.  The result is the
    graph, the airports table and the generator after the pass. *)
Definition load_graph {rng : Type} (random : rng -> float * rng)
    (airports : list airport_row) (routes : list route_row) (g : rng)
  : outcome (DiGraph * list airport_row * rng) :=
  built <- build_air_route_graph airports routes ;;
  let (G, g') := simulate_weather_conditions random (fst built) g in
  Returns (G, snd built, g').

(** What the request leaves on the screen: the best route with its metrics,
    the notice that there is no route, or the error dialog with the
    exception that ended the request. *)
Inductive display : Type :=
| BestRoute (route_names : list string) (m : metrics)
| NoRouteFound
| ErrorDialog (e : exn).

Definition named (nm : string) (row : airport_row) : bool :=
  match a_name row with
  | Name s => String.eqb s nm
  | NoName => false
  end.

(** [int(airports_df[airports_df['name'] == nm]['id'].values[0])]: the id of
    the first row with that name, an [IndexError] when there is none. *)
Definition airport_id (airports_df : list airport_row) (nm : string) : outcome Z :=
  match find (named nm) airports_df with
  | None => Raises IndexError
  | Some row => py_int (id_cell airports_df row)
  end.

(** [graph.nodes[n]['name']]: a [KeyError] when [n] is no node or has no
    name attribute. *)
Definition node_name (G : DiGraph) (n : node) : outcome name_cell :=
  match dict_get n (node_attr G) with
  | Some (Some a) => Returns (name a)
  | _ => Raises KeyError
  end.

(** An item of [' -> '.join(route_names)]: a [TypeError] when it is no
    text. *)
Definition text_of (c : name_cell) : outcome string :=
  match c with
  | Name s => Returns s
  | NoName => Raises TypeError
  end.

Definition is_empty (nm : string) : bool := String.eqb nm EmptyString.

(** [find_route]: [src_name] and [dest_name] are the texts of the two
    selection boxes, and [weights] the four weight entries read by [float]
    ([None] when one of them is no number).  The names of the nodes are
    looked up, the path is analyzed, and the names are joined for the
    screen, in this order; the metrics are then shown rounded to two
    decimals, which is left out.  Every exception ends in the error
    dialog. *)
Definition find_route (G : DiGraph) (airports_df : list airport_row)
    (src_name dest_name : string) (weights : option weight_vector) : display :=
  if is_empty src_name || is_empty dest_name then ErrorDialog ValueError
  else
    match airport_id airports_df src_name with
    | Raises e => ErrorDialog e
    | Returns src_id =>
        match airport_id airports_df dest_name with
        | Raises e => ErrorDialog e
        | Returns dest_id =>
            match weights with
            | None => ErrorDialog ValueError
            | Some w =>
                match dijkstra_multi_objective G src_id dest_id w with
                | Raises e => ErrorDialog e
                | Returns (None, _) => NoRouteFound
                | Returns (Some [], _) => NoRouteFound
                | Returns (Some p, _) =>
                    match collect (node_name G) p with
                    | Raises e => ErrorDialog e
                    | Returns route_names =>
                        match analyze_path G p with
                        | Raises e => ErrorDialog e
                        | Returns m =>
                            match collect text_of route_names with
                            | Raises e => ErrorDialog e
                            | Returns texts => BestRoute texts m
                            end
                        end
                    end
                end
            end
        end
    end.

(** ** What the tables say

    The rows as the loops of [build_air_route_graph] read them: the node id
    that [int] makes of the id of an airport row with the attributes of the
    row, and the two node ids of a route row with its four costs. *)

Record node_entry : Type := mk_node_entry {
  e_id : node;
  e_data : node_data
}.

Record edge_entry : Type := mk_edge_entry {
  e_from : node;
  e_to : node;
  e_costs : edge_data
}.

Definition airport_entry (row : airport_row) : outcome node_entry :=
  n <- py_int (a_id row) ;;
  Returns (mk_node_entry n (airport_data row)).

Definition route_entry (row : route_row) : outcome edge_entry :=
  u <- py_int (r_from row) ;;
  v <- py_int (r_to row) ;;
  Returns (mk_edge_entry u v (route_data row)).

Definition node_entries (airports : list airport_row) : outcome (list node_entry) :=
  collect airport_entry (airports_iterrows airports).

Definition edge_entries (routes : list route_row) : outcome (list edge_entry) :=
  collect route_entry (routes_iterrows routes).

Definition put_node (G : DiGraph) (e : node_entry) : DiGraph :=
  add_node G (e_id e) (e_data e).

Definition put_edge (G : DiGraph) (e : edge_entry) : DiGraph :=
  add_edge G (e_from e) (e_to e) (e_costs e).

Definition graph_from (ns : list node_entry) (es : list edge_entry) : DiGraph :=
  fold_left put_edge es (fold_left put_node ns empty_graph).

(** The last airport row with a given node id, the last route row between
    two given nodes, and whether some route row has a given node as an
    end. *)
Definition last_node (n : node) (ns : list node_entry) : option node_entry :=
  find (fun e => Z.eqb (e_id e) n) (rev ns).

Definition last_edge (u v : node) (es : list edge_entry) : option edge_entry :=
  find (fun e => Z.eqb (e_from e) u && Z.eqb (e_to e) v) (rev es).

Definition endpoint_of (n : node) (es : list edge_entry) : bool :=
  existsb (fun e => Z.eqb (e_from e) n || Z.eqb (e_to e) n) es.

(** The node has a row in the airports table. *)
Definition declared (ns : list node_entry) (n : node) : bool :=
  existsb (fun e => Z.eqb (e_id e) n) ns.

(** Every route row runs between two nodes of the airports table. *)
Definition routes_declared (ns : list node_entry) (es : list edge_entry) : bool :=
  forallb (fun e => declared ns (e_from e) && declared ns (e_to e)) es.

(** The two ends of a route row, and the heads of the route rows that leave
    a given node. *)
Definition ends (e : edge_entry) : list node := [e_from e; e_to e].

Definition heads_from (u : node) (es : list edge_entry) : list node :=
  map e_to (filter (fun e => Z.eqb (e_from e) u) es).

(** A list without its repetitions, every element at its first place: the
    elements are gone through in order, and one that has not been seen yet is
    put last. *)
Definition remember (seen : list node) (x : node) : list node :=
  if on_path x seen then seen else seen ++ [x].

Definition first_occurrences (l : list node) : list node := fold_left remember l [].

(** No key is there twice: every node is listed once, and once among the
    successors of any node. *)
Definition well_keyed (G : DiGraph) : Prop :=
  NoDup (dict_keys (node_attr G)) /\
  NoDup (dict_keys (adj G)) /\
  Forall (fun entry => NoDup (dict_keys (snd entry))) (adj G).

(** The two dictionaries of a graph have the same keys. *)
Definition same_keys (G : DiGraph) : Prop :=
  forall n, dict_mem n (node_attr G) = dict_mem n (adj G).

(** Every successor is a node of the graph, as in every graph that
    [add_edge] has made. *)
Definition closed (G : DiGraph) : Prop :=
  forall u v, In v (successors G u) -> has_node G v = true.

(** ** Example tables *)

(** The scenario of the specification: the airports A, B, C, D under the ids
    1 to 4, and the four routes.  The congestion cells are decimal, so every
    row of the routes table is a row of floats. *)
Definition scenario_airports : list airport_row :=
  [ mk_airport_row (I 1) (Name "A") (F 0) (F 0); mk_airport_row (I 2) (Name "B") (F 0) (F 1);
    mk_airport_row (I 3) (Name "C") (F 1) (F 0); mk_airport_row (I 4) (Name "D") (F 1) (F 1) ].

Definition scenario_routes : list route_row :=
  [ mk_route_row (I 1) (I 2) (I 100) (I 10) (I 20) (F 0.1);
    mk_route_row (I 2) (I 4) (I 100) (I 10) (I 20) (F 0.1);
    mk_route_row (I 1) (I 3) (I 150) (I 8) (I 25) (F 0.05);
    mk_route_row (I 3) (I 4) (I 50) (I 8) (I 15) (F 0.05) ].

Definition scenario_graph : DiGraph := graph_of scenario_airports scenario_routes.

Definition unit_weights : weight_vector := mk_weights 1 1 1 1.

(** A table of integers with a tie: from 1 to 4 through 2 at score 12,
    through 3 and through 5 at score 8 each, under unit weights. *)
Definition tie_routes : list route_row :=
  [ mk_route_row (I 1) (I 2) (I 2) (I 2) (I 1) (I 1);
    mk_route_row (I 2) (I 4) (I 2) (I 2) (I 1) (I 1);
    mk_route_row (I 1) (I 3) (I 1) (I 1) (I 1) (I 1);
    mk_route_row (I 3) (I 4) (I 1) (I 1) (I 1) (I 1);
    mk_route_row (I 1) (I 5) (I 1) (I 1) (I 1) (I 1);
    mk_route_row (I 5) (I 4) (I 1) (I 1) (I 1) (I 1) ].

Definition tie_graph : DiGraph := graph_of [] tie_routes.

(** Airports and routes with a route through a node that has no airport row:
    1 and 3 are declared, 2 is not. *)
Definition gap_airports : list airport_row :=
  [ mk_airport_row (I 1) (Name "A") (F 0) (F 0); mk_airport_row (I 3) (Name "C") (F 1) (F 0) ].

Definition gap_routes : list route_row :=
  [ mk_route_row (I 1) (I 2) (I 100) (I 10) (I 20) (F 0.1);
    mk_route_row (I 2) (I 3) (I 100) (I 10) (I 20) (F 0.1) ].

Definition gap_graph : DiGraph := graph_of gap_airports gap_routes.

(** A routes table with a missing duration, which is read as NaN. *)
Definition nan_routes : list route_row :=
  [ mk_route_row (I 1) (I 2) (I 1) (I 1) (I 1) (I 1);
    mk_route_row (I 1) (I 3) (I 1) (F nan) (I 1) (I 1);
    mk_route_row (I 3) (I 2) (I 1) (I 1) (I 1) (I 1) ].

(** A table of integers whose two distances add up beyond [2^63 - 1]. *)
Definition far_routes : list route_row :=
  [ mk_route_row (I 1) (I 2) (I 9223372036854775807) (I 1) (I 1) (I 1);
    mk_route_row (I 2) (I 3) (I 9223372036854775807) (I 1) (I 1) (I 1) ].

Definition far_graph : DiGraph := graph_of [] far_routes.

(** Eight draws of 0.5 followed by eight draws of 0.25: enough for two passes
    over a graph of four edges. *)
Definition example_tape : list float := (repeat 0.5 8 ++ repeat 0.25 8)%float.

(** ** Notions the properties are stated with *)

(** The update of the scoring loop and of the analysis loop, for an edge that
    has been fetched. *)
Definition add_costs (total : totals) (edge : edge_data) : totals :=
  mk_totals (num_add (t_distance total) (weight edge))
            (num_add (t_duration total) (duration edge))
            (num_add (t_fuel total) (fuel edge))
            (num_add (t_congestion total) (congestion edge)).

Definition add_metrics (acc : num * num * num * num) (edge : edge_data)
  : num * num * num * num :=
  let '(distance, duration_, fuel_, congestion_) := acc in
  (num_add distance (weight edge), num_add duration_ (duration edge),
   num_add fuel_ (fuel edge), num_add congestion_ (congestion edge)).

Definition sums_of (es : list edge_data) : totals :=
  mk_totals (sum_of weight es) (sum_of duration es) (sum_of fuel es) (sum_of congestion es).

(** Every consecutive pair of the path is an edge of the graph. *)
Definition linked (G : DiGraph) (p : path) : Prop :=
  forall u v, In (u, v) (steps p) -> exists d, get_edge G u v = Returns d.

(** What the selection loop has established once it has gone through [seen]:
    no path seen scores strictly below [best_score], and [best_path] is
    either still [None] with the initial score, or a path seen whose score is
    [best_score] and lies strictly below infinity. *)
Definition selected (G : DiGraph) (w : weight_vector) (seen : list path)
    (best : option path * float) : Prop :=
  (forall q, In q seen ->
     exists sq, path_score G w q = Returns sq /\ (sq <? snd best)%float = false) /\
  match fst best with
  | None => snd best = infinity
  | Some p => In p seen /\ path_score G w p = Returns (snd best)
              /\ (snd best <? infinity)%float = true
  end.

(** A computation on the generator that makes exactly [n] draws: it leaves
    the generator [n] draws further, and its result depends on the generator
    through these [n] draws only. *)
Definition makes_draws {rng X : Type} (random : rng -> float * rng) (n : nat)
    (f : rng -> X * rng) : Prop :=
  (forall g, snd (f g) = advance random n g) /\
  (forall g1 g2, draws random n g1 = draws random n g2 -> fst (f g1) = fst (f g2)).


(** * Properties *)

(** ** The order of binary64 values

    [<] and [<=] on floats are read through their specification on
    [spec_float]: a strict order that is total away from NaN, while every
    comparison with NaN is false. *)

Module FloatOrder.

Ltac cmp_cases :=
  repeat match goal with
  | |- context [Z.compare ?a ?b] => destruct (Z.compare_spec a b)
  | |- context [PosDef.Pos.compare_cont Eq ?a ?b] =>
      change (PosDef.Pos.compare_cont Eq a b) with (Pos.compare a b);
      destruct (Pos.compare_spec a b)
  end;
  subst; simpl; try reflexivity; try discriminate; try lia.

Lemma SFcompare_antisym (x y : spec_float) :
  SFcompare y x = option_map CompOpp (SFcompare x y).
Proof.
  destruct x as [sx|sx| |sx mx ex], y as [sy|sy| |sy my ey]; simpl;
    try reflexivity; try (destruct sx; reflexivity); try (destruct sy; reflexivity);
    try (destruct sx, sy; reflexivity).
  destruct sx, sy; simpl; try reflexivity; cmp_cases.
Qed.

Lemma SFcompare_lt_trans (x y z : spec_float) :
  SFcompare x y = Some Lt -> SFcompare y z = Some Lt -> SFcompare x z = Some Lt.
Proof.
  destruct x as [sx|sx| |sx mx ex], y as [sy|sy| |sy my ey], z as [sz|sz| |sz mz ez];
    simpl; try discriminate; try (destruct sx, sy, sz; simpl; congruence).
  destruct sx, sy, sz; simpl; try congruence; cmp_cases.
Qed.

Lemma SFcompare_total (x y : spec_float) :
  x <> S754_nan -> y <> S754_nan -> exists c, SFcompare x y = Some c.
Proof.
  destruct x, y; simpl; try congruence; eauto.
Qed.

Lemma SFcompare_refl (x : spec_float) :
  x <> S754_nan -> SFcompare x x = Some Eq.
Proof.
  destruct x as [s|s| |s m e]; simpl; try congruence; intros _;
    destruct s; try reflexivity; cmp_cases.
Qed.

Open Scope float_scope.

Lemma is_nan_spec (x : float) : is_nan x = true <-> Prim2SF x = S754_nan.
Proof.
  unfold is_nan. rewrite eqb_spec. unfold SFeqb. split.
  - destruct (Prim2SF x) eqn:E; try reflexivity;
      rewrite SFcompare_refl by discriminate; discriminate.
  - intros ->. reflexivity.
Qed.

Lemma not_nan_spec (x : float) : is_nan x = false <-> Prim2SF x <> S754_nan.
Proof.
  rewrite <- is_nan_spec. destruct (is_nan x); split; congruence.
Qed.

Lemma ltb_trans (x y z : float) :
  (x <? y) = true -> (y <? z) = true -> (x <? z) = true.
Proof.
  rewrite !ltb_spec. unfold SFltb.
  destruct (SFcompare (Prim2SF x) (Prim2SF y)) as [[]|] eqn:Hxy; try discriminate.
  destruct (SFcompare (Prim2SF y) (Prim2SF z)) as [[]|] eqn:Hyz; try discriminate.
  rewrite (SFcompare_lt_trans _ _ _ Hxy Hyz). reflexivity.
Qed.

Lemma ltb_irrefl (x : float) : (x <? x) = false.
Proof.
  rewrite ltb_spec. unfold SFltb.
  assert (H := SFcompare_antisym (Prim2SF x) (Prim2SF x)).
  destruct (SFcompare (Prim2SF x) (Prim2SF x)) as [[]|]; simpl in H;
    try reflexivity; discriminate.
Qed.

Lemma ltb_not_nan (x y : float) :
  (x <? y) = true -> is_nan x = false /\ is_nan y = false.
Proof.
  rewrite ltb_spec, !not_nan_spec. unfold SFltb.
  destruct (Prim2SF x), (Prim2SF y); simpl; try discriminate; split; discriminate.
Qed.

Lemma ltb_false_leb (x y : float) :
  (x <? y) = false -> is_nan x = false -> is_nan y = false -> (y <=? x) = true.
Proof.
  rewrite ltb_spec, leb_spec, !not_nan_spec. unfold SFltb, SFleb. intros H Hx Hy.
  rewrite (SFcompare_antisym (Prim2SF x) (Prim2SF y)).
  destruct (SFcompare_total _ _ Hx Hy) as [c Hc]. rewrite Hc in *.
  destruct c; simpl; congruence.
Qed.

Lemma leb_ltb_false (x y : float) :
  (x <=? y) = true -> (y <? x) = false.
Proof.
  rewrite ltb_spec, leb_spec. unfold SFltb, SFleb.
  rewrite (SFcompare_antisym (Prim2SF x) (Prim2SF y)).
  destruct (SFcompare (Prim2SF x) (Prim2SF y)) as [[]|]; simpl; congruence.
Qed.

Lemma leb_neqb_ltb (x y : float) :
  (x <=? y) = true -> (y =? x) = false -> (x <? y) = true.
Proof.
  rewrite ltb_spec, leb_spec, eqb_spec. unfold SFltb, SFleb, SFeqb.
  rewrite (SFcompare_antisym (Prim2SF x) (Prim2SF y)).
  destruct (SFcompare (Prim2SF x) (Prim2SF y)) as [[]|]; simpl; congruence.
Qed.

End FloatOrder.


(** ** Loops *)

Lemma bind_returns {A B : Type} (m : outcome A) (k : A -> outcome B) (b : B) :
  bind m k = Returns b -> exists a, m = Returns a /\ k a = Returns b.
Proof.
  destruct m as [a|e]; simpl; [eauto | discriminate].
Qed.

Lemma for_each_app {A S : Type} (body : S -> A -> outcome S) (l1 l2 : list A) (s : S) :
  for_each body (l1 ++ l2) s = (s' <- for_each body l1 s ;; for_each body l2 s').
Proof.
  revert s. induction l1 as [|a l1 IH]; intros s; simpl; [reflexivity|].
  destruct (body s a) as [s'|e]; simpl; [apply IH | reflexivity].
Qed.

Lemma for_each_map {A B S : Type} (g : A -> B) (body : S -> B -> outcome S)
    (l : list A) (s : S) :
  for_each (fun s a => body s (g a)) l s = for_each body (map g l) s.
Proof.
  revert s. induction l as [|a l IH]; intros s; simpl; [reflexivity|].
  destruct (body s (g a)); simpl; [apply IH | reflexivity].
Qed.

Lemma for_each_ext {A S : Type} (body body' : S -> A -> outcome S) (l : list A) (s : S) :
  (forall s a, body s a = body' s a) -> for_each body l s = for_each body' l s.
Proof.
  intros E. revert s. induction l as [|a l IH]; intros s; simpl; [reflexivity|].
  rewrite E. destruct (body' s a); simpl; [apply IH | reflexivity].
Qed.

(** A loop that fetches a value per element and folds it into the state is
    the fetches followed by the fold. *)
Lemma for_each_collect {A B S : Type} (f : A -> outcome B) (h : S -> B -> S)
    (l : list A) (s : S) :
  for_each (fun s a => b <- f a ;; Returns (h s b)) l s
  = (bs <- collect f l ;; Returns (fold_left h bs s)).
Proof.
  revert s. induction l as [|a l IH]; intros s; simpl; [reflexivity|].
  destruct (f a) as [b|e]; simpl; [|reflexivity].
  rewrite IH. destruct (collect f l); reflexivity.
Qed.

(** The index loop [for i in range(len(path) - 1)] visits the consecutive
    pairs of the path. *)
Lemma index_pairs (p : path) :
  map (fun i => (item p i, item p (i + 1))) (seq 0 (length p - 1)) = steps p.
Proof.
  induction p as [|x p IH]; [reflexivity|].
  destruct p as [|y p]; [reflexivity|].
  change (length (x :: y :: p) - 1) with (S (length p)).
  change (steps (x :: y :: p)) with ((x, y) :: steps (y :: p)).
  rewrite <- IH.
  change (seq 0 (S (length p))) with (0 :: seq 1 (length p)).
  rewrite <- seq_shift, map_cons, map_map.
  f_equal. replace (length (y :: p) - 1) with (length p) by (simpl; lia).
  apply map_ext. intros i. reflexivity.
Qed.


(** ** Numbers *)

Lemma wrap64_small (z : Z) : (- 2 ^ 63 <= z < 2 ^ 63)%Z -> wrap64 z = z.
Proof.
  intros H. unfold wrap64. rewrite Z.mod_small; lia.
Qed.

Lemma wrap64_range (z : Z) : (- 2 ^ 63 <= wrap64 z < 2 ^ 63)%Z.
Proof.
  unfold wrap64. assert (H := Z.mod_pos_bound (z + 2 ^ 63) (2 ^ 64)). lia.
Qed.

(** A sum of integers that are not negative and add up to less than [2^63]
    is the exact sum: no addition wraps around. *)
Lemma int_sum_exact {A : Type} (f : A -> num) (es : list A) (zs : list Z) :
  forall acc : Z,
    map f es = map I zs ->
    (0 <= acc)%Z ->
    Forall (fun z => (0 <= z)%Z) zs ->
    (acc + fold_right Z.add 0%Z zs < 2 ^ 63)%Z ->
    fold_left (fun a e => num_add a (f e)) es (I acc) = I (acc + fold_right Z.add 0%Z zs).
Proof.
  revert zs. induction es as [|e es IH]; intros [|z zs] acc Hmap Hacc Hpos Hsum;
    try discriminate; simpl in *.
  - rewrite Z.add_0_r. reflexivity.
  - injection Hmap as He Hmap. inversion Hpos as [|z' zs' Hz Hzs]; subst.
    assert (Hnn : (0 <= fold_right Z.add 0%Z zs)%Z).
    { clear - Hzs. induction Hzs; simpl; lia. }
    rewrite He. simpl. rewrite wrap64_small by lia.
    rewrite (IH zs (acc + z)%Z Hmap) by (assumption || lia).
    f_equal. lia.
Qed.

(** A sum of floats is the float sum from left to right. *)
Lemma float_sum {A : Type} (f : A -> num) (es : list A) (fs : list float) :
  forall acc : num,
    map f es = map F fs ->
    to_float (fold_left (fun a e => num_add a (f e)) es acc)
    = fold_left (fun a x => (a + x)%float) fs (to_float acc).
Proof.
  revert fs. induction es as [|e es IH]; intros [|x fs] acc Hmap; try discriminate; simpl in *.
  - reflexivity.
  - injection Hmap as He Hmap. rewrite He.
    rewrite (IH fs _ Hmap). destruct acc; reflexivity.
Qed.

(** ** The sums of the scorer and of the analyzer *)

Lemma fold_add_costs (es : list edge_data) (t : totals) :
  fold_left add_costs es t
  = mk_totals (fold_left (fun acc e => num_add acc (weight e)) es (t_distance t))
              (fold_left (fun acc e => num_add acc (duration e)) es (t_duration t))
              (fold_left (fun acc e => num_add acc (fuel e)) es (t_fuel t))
              (fold_left (fun acc e => num_add acc (congestion e)) es (t_congestion t)).
Proof.
  revert t. induction es as [|e es IH]; intros t; simpl.
  - destruct t; reflexivity.
  - rewrite IH. reflexivity.
Qed.

Lemma fold_add_metrics (es : list edge_data) (a b c d : num) :
  fold_left add_metrics es (a, b, c, d)
  = (fold_left (fun acc e => num_add acc (weight e)) es a,
     fold_left (fun acc e => num_add acc (duration e)) es b,
     fold_left (fun acc e => num_add acc (fuel e)) es c,
     fold_left (fun acc e => num_add acc (congestion e)) es d).
Proof.
  revert a b c d. induction es as [|e es IH]; intros a b c d; simpl; [reflexivity|].
  apply IH.
Qed.

(** The scoring loop, read over the edges along the path. *)
Lemma path_totals_along (G : DiGraph) (p : path) :
  path_totals G p = (es <- edges_along G p ;; Returns (sums_of es)).
Proof.
  unfold path_totals, edges_along.
  rewrite <- index_pairs.
  transitivity (bs <- collect (fun uv => get_edge G (fst uv) (snd uv))
                        (map (fun i => (item p i, item p (i + 1))) (seq 0 (length p - 1))) ;;
                Returns (fold_left add_costs bs zero_totals)).
  - rewrite <- (for_each_collect (fun uv => get_edge G (fst uv) (snd uv)) add_costs).
    rewrite <- for_each_map. reflexivity.
  - destruct (collect _ _) as [bs|e]; simpl; [|reflexivity].
    rewrite fold_add_costs. reflexivity.
Qed.

(** The loop of [analyze_path], read over the edges along the path. *)
Lemma analyze_sums_along (G : DiGraph) (p : path) :
  analyze_sums G p
  = (es <- edges_along G p ;;
     Returns (sum_of weight es, sum_of duration es, sum_of fuel es, sum_of congestion es)).
Proof.
  unfold analyze_sums, edges_along.
  rewrite <- index_pairs.
  transitivity (bs <- collect (fun uv => get_edge G (fst uv) (snd uv))
                        (map (fun i => (item p i, item p (i + 1))) (seq 0 (length p - 1))) ;;
                Returns (fold_left add_metrics bs (I 0, I 0, I 0, I 0))).
  - rewrite <- (for_each_collect (fun uv => get_edge G (fst uv) (snd uv)) add_metrics).
    rewrite <- for_each_map. apply for_each_ext.
    intros [[[a b] c] d] i. reflexivity.
  - destruct (collect _ _) as [bs|e]; simpl; [|reflexivity].
    rewrite fold_add_metrics. reflexivity.
Qed.

Lemma analyze_path_along (G : DiGraph) (p : path) :
  analyze_path G p
  = (es <- edges_along G p ;;
     avg <- py_div (sum_of congestion es) (Z.of_nat (length p) - 1) ;;
     Returns (mk_metrics (sum_of weight es) (sum_of duration es) (sum_of fuel es) avg)).
Proof.
  unfold analyze_path. rewrite analyze_sums_along.
  destruct (edges_along G p); reflexivity.
Qed.

(** The score of a path is the weighted sum of the sums of the four
    attributes over the edges along it. *)
Lemma path_score_along (G : DiGraph) (w : weight_vector) (p : path) :
  path_score G w p = (es <- edges_along G p ;; Returns (weighted_sum w (sums_of es))).
Proof.
  unfold path_score. rewrite path_totals_along.
  destruct (edges_along G p); reflexivity.
Qed.


Lemma get_edge_raises (G : DiGraph) (u v : node) (e : exn) :
  get_edge G u v = Raises e -> e = KeyError.
Proof.
  unfold get_edge. destruct (dict_get u (adj G)) as [nbrs|]; [|congruence].
  destruct (dict_get v nbrs); congruence.
Qed.

Lemma raised_get_edge (G : DiGraph) (u v : node) :
  raised (get_edge G u v) = true -> get_edge G u v = Raises KeyError.
Proof.
  destruct (get_edge G u v) as [d|e] eqn:E; simpl; [discriminate|].
  intros _. f_equal. exact (get_edge_raises _ _ _ _ E).
Qed.

(** When every failure of [f] is the same exception, a failing element makes
    the whole collection fail with it. *)
Lemma collect_raises {A B : Type} (f : A -> outcome B) (x : exn) (l : list A) (a : A) :
  (forall a' e, f a' = Raises e -> e = x) ->
  In a l -> f a = Raises x -> collect f l = Raises x.
Proof.
  intros Hx. induction l as [|a0 l IH]; intros Hin Ha; [destruct Hin|].
  simpl. destruct (f a0) as [b|e] eqn:E; simpl.
  - destruct Hin as [->|Hin]; [congruence|].
    rewrite (IH Hin Ha). reflexivity.
  - f_equal. exact (Hx _ _ E).
Qed.

Lemma edges_along_missing (G : DiGraph) (p : path) (u v : node) :
  In (u, v) (steps p) -> raised (get_edge G u v) = true ->
  edges_along G p = Raises KeyError.
Proof.
  intros Hin Hraised. unfold edges_along.
  apply (collect_raises (fun uv => get_edge G (fst uv) (snd uv)) KeyError (steps p) (u, v)).
  - intros a' e. apply get_edge_raises.
  - exact Hin.
  - simpl. apply raised_get_edge. exact Hraised.
Qed.


(** ** The enumerated paths lie in the graph *)

Lemma dict_get_key {V : Type} (k : node) (d : dict V) :
  In k (dict_keys d) -> exists v, dict_get k d = Some v.
Proof.
  induction d as [|[k' v'] d IH]; simpl; [intros []|].
  intros [E|Hin].
  - subst k'. rewrite Z.eqb_refl. eauto.
  - destruct (Z.eqb k k'); [eauto | exact (IH Hin)].
Qed.

Lemma successors_get_edge (G : DiGraph) (u v : node) :
  In v (successors G u) -> exists d, get_edge G u v = Returns d.
Proof.
  unfold successors, get_edge.
  destruct (dict_get u (adj G)) as [nbrs|]; [|intros []].
  intros Hin. destruct (dict_get_key v nbrs Hin) as [d Hd].
  rewrite Hd. eauto.
Qed.

Lemma steps_snoc (l : path) (u v : node) :
  steps ((l ++ [u]) ++ [v]) = steps (l ++ [u]) ++ [(u, v)].
Proof.
  induction l as [|x l IH]; [reflexivity|].
  destruct l as [|y l]; [reflexivity|].
  change (steps (((x :: y :: l) ++ [u]) ++ [v]))
    with ((x, y) :: steps (((y :: l) ++ [u]) ++ [v])).
  rewrite IH. reflexivity.
Qed.

Lemma linked_snoc (G : DiGraph) (l : path) (u v : node) :
  linked G (l ++ [u]) -> In v (successors G u) -> linked G ((l ++ [u]) ++ [v]).
Proof.
  intros Hl Hv a b. rewrite steps_snoc, in_app_iff.
  intros [Hin|[E|[]]].
  - exact (Hl a b Hin).
  - inversion E; subst. exact (successors_get_edge G a b Hv).
Qed.

Lemma simple_paths_from_linked (G : DiGraph) (target : node) (budget : nat) :
  forall (current_path : path) (next_node : node) (q : path),
    linked G (current_path ++ [next_node]) ->
    In q (simple_paths_from G target budget current_path next_node) ->
    linked G q.
Proof.
  induction budget as [|b IH]; intros cur u q Hl; simpl; rewrite in_app_iff.
  - intros [Hq|[]]. destruct (Z.eqb u target); [|destruct Hq].
    destruct Hq as [<-|[]]. exact Hl.
  - intros [Hq|Hq].
    + destruct (Z.eqb u target); [|destruct Hq].
      destruct Hq as [<-|[]]. exact Hl.
    + destruct (Z.eqb u target); [destruct Hq|].
      apply in_flat_map in Hq. destruct Hq as (v & Hv & Hq).
      destruct (on_path v (cur ++ [u])); [destruct Hq|].
      exact (IH (cur ++ [u]) v q (linked_snoc G cur u v Hl Hv) Hq).
Qed.

Lemma all_simple_paths_linked (G : DiGraph) (source target : node) (paths : list path) (q : path) :
  all_simple_paths G source target = Returns paths -> In q paths -> linked G q.
Proof.
  unfold all_simple_paths.
  destruct (negb (has_node G source)); [discriminate|].
  destruct (negb (has_node G target)); [discriminate|].
  intros E Hq. injection E as <-.
  apply (simple_paths_from_linked G target (number_of_nodes G - 1) [] source q); [|exact Hq].
  intros u v [].
Qed.

Lemma NoDup_snoc {A : Type} (l : list A) (x : A) :
  NoDup l -> ~ In x l -> NoDup (l ++ [x]).
Proof.
  intros Hl Hx. induction Hl as [|y l Hy Hl IH]; simpl.
  - constructor; [tauto | constructor].
  - constructor.
    + rewrite in_app_iff. simpl. intros [H|[H|[]]]; [tauto|].
      apply Hx. left. symmetry. exact H.
    + apply IH. intros H. apply Hx. right. exact H.
Qed.

Lemma last_cons_default {A : Type} (x : A) (r : list A) (d d' : A) :
  last (x :: r) d = last (x :: r) d'.
Proof.
  revert x. induction r as [|y r IH]; intros x; [reflexivity|].
  change (last (y :: r) d = last (y :: r) d'). apply IH.
Qed.

Lemma last_app_cons {A : Type} (l : list A) (x : A) (r : list A) (d d' : A) :
  last (l ++ x :: r) d = last (x :: r) d'.
Proof.
  induction l as [|y l IH]; simpl app; [apply last_cons_default|].
  rewrite <- IH. destruct (l ++ x :: r) eqn:E; [|reflexivity].
  destruct l; discriminate.
Qed.

Lemma on_path_false (v : node) (p : path) : on_path v p = false -> ~ In v p.
Proof.
  unfold on_path. intros H Hin.
  assert (E : existsb (Z.eqb v) p = true).
  { apply existsb_exists. exists v. split; [exact Hin | apply Z.eqb_refl]. }
  congruence.
Qed.

(** An enumerated path goes on from the current path, repeats no node and
    ends at the target. *)
Lemma simple_paths_from_simple (G : DiGraph) (target : node) (budget : nat) :
  forall (current_path : path) (next_node : node) (q : path),
    NoDup (current_path ++ [next_node]) ->
    In q (simple_paths_from G target budget current_path next_node) ->
    NoDup q /\ (exists rest, q = current_path ++ next_node :: rest) /\ last q next_node = target.
Proof.
  assert (Hyield : forall (cur : path) (u : node) (q : path),
             NoDup (cur ++ [u]) ->
             In q (if Z.eqb u target then [cur ++ [u]] else []) ->
             NoDup q /\ (exists rest, q = cur ++ u :: rest) /\ last q u = target).
  { intros cur u q Hnd Hq. destruct (Z.eqb_spec u target) as [->|]; [|destruct Hq].
    destruct Hq as [<-|[]]. split; [exact Hnd|]. split; [exists []; reflexivity|].
    apply last_last. }
  induction budget as [|b IH]; intros cur u q Hnd; simpl; rewrite in_app_iff.
  - intros [Hq|[]]. exact (Hyield cur u q Hnd Hq).
  - intros [Hq|Hq]; [exact (Hyield cur u q Hnd Hq)|].
    destruct (Z.eqb u target); [destruct Hq|].
    apply in_flat_map in Hq. destruct Hq as (v & Hv & Hq).
    destruct (on_path v (cur ++ [u])) eqn:Hon; [destruct Hq|].
    destruct (IH (cur ++ [u]) v q) as (Hq1 & (rest & Hq2) & Hq3).
    + apply NoDup_snoc; [exact Hnd | exact (on_path_false _ _ Hon)].
    + exact Hq.
    + subst q. split; [exact Hq1|]. split.
      * exists (v :: rest). rewrite <- app_assoc. reflexivity.
      * rewrite (last_app_cons (cur ++ [u]) v rest u v).
        rewrite (last_app_cons (cur ++ [u]) v rest v v) in Hq3. exact Hq3.
Qed.

Lemma all_simple_paths_simple (G : DiGraph) (source target : node) (paths : list path) (q : path) :
  all_simple_paths G source target = Returns paths -> In q paths ->
  NoDup q /\ hd_error q = Some source /\ last q source = target.
Proof.
  unfold all_simple_paths.
  destruct (negb (has_node G source)); [discriminate|].
  destruct (negb (has_node G target)); [discriminate|].
  intros E Hq. injection E as <-.
  destruct (simple_paths_from_simple G target (number_of_nodes G - 1) [] source q)
    as (Hnd & (rest & ->) & Hlast).
  - constructor; [intros [] | constructor].
  - exact Hq.
  - split; [exact Hnd|]. split; [reflexivity | exact Hlast].
Qed.

Lemma collect_returns {A B : Type} (f : A -> outcome B) (l : list A) :
  (forall a, In a l -> exists b, f a = Returns b) -> exists bs, collect f l = Returns bs.
Proof.
  induction l as [|a l IH]; intros H; simpl; [eauto|].
  destruct (H a (or_introl eq_refl)) as [b ->].
  destruct IH as [bs ->]; [intros a' Ha'; apply H; right; exact Ha'|].
  simpl. eauto.
Qed.

Lemma linked_edges_along (G : DiGraph) (p : path) :
  linked G p -> exists es, edges_along G p = Returns es.
Proof.
  intros Hl. apply collect_returns. intros [u v] Hin. exact (Hl u v Hin).
Qed.

Lemma linked_path_score (G : DiGraph) (w : weight_vector) (p : path) :
  linked G p -> exists s, path_score G w p = Returns s.
Proof.
  intros Hl. destruct (linked_edges_along G p Hl) as [es Hes].
  rewrite path_score_along, Hes. simpl. eauto.
Qed.

(** Scoring never fails on a path that the enumeration produced. *)
Lemma enumerated_path_score (G : DiGraph) (w : weight_vector) (source target : node)
    (paths : list path) (q : path) :
  all_simple_paths G source target = Returns paths -> In q paths ->
  exists s, path_score G w q = Returns s.
Proof.
  intros E Hq. apply linked_path_score.
  exact (all_simple_paths_linked G source target paths q E Hq).
Qed.


(** ** The selection loop *)

Section Selection.

Variable G : DiGraph.
Variable w : weight_vector.

Lemma best_below_infinity (seen : list path) (best : option path * float) (s : float) :
  selected G w seen best -> (s <? snd best)%float = true -> (s <? infinity)%float = true.
Proof.
  intros [_ Hb] Hs. destruct (fst best) as [p|].
  - destruct Hb as (_ & _ & Hinf). exact (FloatOrder.ltb_trans _ _ _ Hs Hinf).
  - rewrite Hb in Hs. exact Hs.
Qed.

Lemma select_best_selected (paths : list path) :
  (forall q, In q paths -> exists sq, path_score G w q = Returns sq) ->
  exists best, select_best G w paths = Returns best /\ selected G w paths best.
Proof.
  unfold select_best.
  induction paths as [|q seen IH] using rev_ind; intros Hscores.
  - exists (None, infinity). split; [reflexivity|].
    split; [intros q []|reflexivity].
  - destruct IH as (best & Hrun & Hsel).
    { intros q' Hq'. apply Hscores. apply in_or_app. left. exact Hq'. }
    destruct (Hscores q) as [sq Hsq]; [apply in_or_app; right; left; reflexivity|].
    rewrite for_each_app, Hrun. simpl. unfold consider. rewrite Hsq. simpl.
    destruct (sq <? snd best)%float eqn:Hlt; eexists; (split; [reflexivity|]).
    + split; simpl.
      * intros q' Hq'. apply in_app_or in Hq'. destruct Hq' as [Hq'|[<-|[]]].
        -- destruct Hsel as [Hall _]. destruct (Hall q' Hq') as (sq' & Hsq' & Hge).
           exists sq'. split; [exact Hsq'|].
           destruct (sq' <? sq)%float eqn:Hlt'; [|reflexivity].
           rewrite (FloatOrder.ltb_trans _ _ _ Hlt' Hlt) in Hge. discriminate.
        -- exists sq. split; [exact Hsq | apply FloatOrder.ltb_irrefl].
      * split; [apply in_or_app; right; left; reflexivity|].
        split; [exact Hsq | exact (best_below_infinity seen best sq Hsel Hlt)].
    + destruct Hsel as [Hall Hb]. split.
      * intros q' Hq'. apply in_app_or in Hq'. destruct Hq' as [Hq'|[<-|[]]].
        -- exact (Hall q' Hq').
        -- exists sq. split; [exact Hsq | exact Hlt].
      * destruct (fst best) as [p|]; [|exact Hb].
        destruct Hb as (Hin & Hp & Hinf).
        split; [apply in_or_app; left; exact Hin|]. split; assumption.
Qed.

(** Paths that all score strictly above [s] leave the incumbent's score
    strictly above [s]. *)
Lemma loop_stays_above (s : float) (l : list path) :
  forall best : option path * float,
    (s <? snd best)%float = true ->
    (forall q, In q l ->
       exists sq, path_score G w q = Returns sq /\ (s <? sq)%float = true) ->
    exists best', for_each (consider G w) l best = Returns best'
                  /\ (s <? snd best')%float = true.
Proof.
  induction l as [|q l IH]; intros best Hbest Hl; simpl.
  - eauto.
  - destruct (Hl q (or_introl eq_refl)) as (sq & Hsq & Hgt).
    unfold consider at 1. rewrite Hsq. simpl.
    apply IH; [|intros q' Hq'; apply Hl; right; exact Hq'].
    destruct (sq <? snd best)%float; [exact Hgt | exact Hbest].
Qed.

(** Paths none of which scores strictly below the incumbent leave the
    incumbent in place. *)
Lemma loop_keeps_incumbent (p : path) (s : float) (l : list path) :
  (forall q, In q l ->
     exists sq, path_score G w q = Returns sq /\ (sq <? s)%float = false) ->
  for_each (consider G w) l (Some p, s) = Returns (Some p, s).
Proof.
  induction l as [|q l IH]; intros Hl; simpl; [reflexivity|].
  destruct (Hl q (or_introl eq_refl)) as (sq & Hsq & Hge).
  unfold consider at 1. rewrite Hsq. simpl. rewrite Hge.
  apply IH. intros q' Hq'. apply Hl. right. exact Hq'.
Qed.

End Selection.


(** ** What a request returns *)

Lemma dijkstra_returns (G : DiGraph) (start end_ : node) (w : weight_vector)
    (best : option path * float) :
  dijkstra_multi_objective G start end_ w = Returns best ->
  exists paths, all_simple_paths G start end_ = Returns paths
                /\ select_best G w paths = Returns best.
Proof.
  unfold dijkstra_multi_objective, all_simple_paths.
  destruct (negb (has_node G start)); [discriminate|].
  destruct (negb (has_node G end_)); [discriminate|].
  intros H. eauto.
Qed.

Lemma dijkstra_selected (G : DiGraph) (w : weight_vector) (start end_ : node)
    (best : option path * float) :
  dijkstra_multi_objective G start end_ w = Returns best ->
  exists paths, all_simple_paths G start end_ = Returns paths /\ selected G w paths best.
Proof.
  intros Hrun. destruct (dijkstra_returns G start end_ w best Hrun) as (paths & Hpaths & Hsel).
  exists paths. split; [exact Hpaths|].
  destruct (select_best_selected G w paths) as (best' & Hbest & Hselected).
  { intros q Hq. exact (enumerated_path_score G w start end_ paths q Hpaths Hq). }
  rewrite Hsel in Hbest. injection Hbest as <-. exact Hselected.
Qed.

Lemma two_nodes (p : path) (start end_ : node) :
  hd_error p = Some start -> last p start = end_ -> start <> end_ -> (2 <= length p)%nat.
Proof.
  destruct p as [|x [|y p]]; simpl; try discriminate; [|intros; lia].
  intros E L Hne. injection E as ->. contradiction.
Qed.

Lemma dijkstra_absent_start (G : DiGraph) (start end_ : node) (w : weight_vector) :
  has_node G start = false ->
  dijkstra_multi_objective G start end_ w = Raises NodeNotFound.
Proof.
  intros H. unfold dijkstra_multi_objective, all_simple_paths. rewrite H. reflexivity.
Qed.

Lemma dijkstra_absent_end (G : DiGraph) (start end_ : node) (w : weight_vector) :
  has_node G end_ = false ->
  dijkstra_multi_objective G start end_ w = Raises NodeNotFound.
Proof.
  intros H. unfold dijkstra_multi_objective, all_simple_paths. rewrite H.
  destruct (negb (has_node G start)); reflexivity.
Qed.

Lemma dijkstra_no_path (G : DiGraph) (start end_ : node) (w : weight_vector) :
  all_simple_paths G start end_ = Returns [] ->
  dijkstra_multi_objective G start end_ w = Returns (None, infinity).
Proof.
  intros H. unfold dijkstra_multi_objective. rewrite H. reflexivity.
Qed.

Lemma nodes_of_path (p : path) (n : node) :
  In n p -> hd_error p = Some n \/ exists u, In (u, n) (steps p).
Proof.
  induction p as [|x p IH]; [intros []|].
  intros [->|Hin]; [left; reflexivity|].
  right. destruct p as [|y p]; [destruct Hin|].
  change (steps (x :: y :: p)) with ((x, y) :: steps (y :: p)).
  destruct (IH Hin) as [E|[u Hu]].
  - injection E as ->. exists x. left. reflexivity.
  - exists u. right. exact Hu.
Qed.


(** ** Every route is enumerated *)

Lemma dict_get_in_keys {V : Type} (k : node) (v : V) (d : dict V) :
  dict_get k d = Some v -> In k (dict_keys d).
Proof.
  induction d as [|[k' v'] d IH]; simpl; [discriminate|].
  destruct (Z.eqb_spec k k') as [->|]; [left; reflexivity | right; auto].
Qed.

Lemma get_edge_successors (G : DiGraph) (u v : node) (d : edge_data) :
  get_edge G u v = Returns d -> In v (successors G u).
Proof.
  unfold get_edge, successors.
  destruct (dict_get u (adj G)) as [nbrs|]; [|discriminate].
  destruct (dict_get v nbrs) as [d'|] eqn:E; [|discriminate].
  intros _. exact (dict_get_in_keys v d' nbrs E).
Qed.

Lemma has_node_in_keys (G : DiGraph) (n : node) :
  has_node G n = true -> In n (dict_keys (node_attr G)).
Proof.
  unfold has_node, dict_mem.
  destruct (dict_get n (node_attr G)) as [a|] eqn:E; [|discriminate].
  intros _. exact (dict_get_in_keys n a _ E).
Qed.

Lemma on_path_true (v : node) (p : path) : In v p -> on_path v p = true.
Proof.
  intros H. unfold on_path. apply existsb_exists.
  exists v. split; [exact H | apply Z.eqb_refl].
Qed.

Lemma last_in {A : Type} (x : A) (l : list A) (d : A) : In (last (x :: l) d) (x :: l).
Proof.
  revert x. induction l as [|y l IH]; intros x; [left; reflexivity|].
  right. exact (IH y).
Qed.

Lemma linked_tail (G : DiGraph) (u : node) (p : path) : linked G (u :: p) -> linked G p.
Proof.
  intros H a b Hin. apply H. destruct p as [|v p]; [destruct Hin|].
  right. exact Hin.
Qed.

(** The search yields every path that goes on from the current path along
    edges, repeats no node, ends at the target and fits in the budget. *)
Lemma simple_paths_from_complete (G : DiGraph) (target : node) (rest : path) :
  forall (budget : nat) (current_path : path) (next_node : node),
    (length rest <= budget)%nat ->
    NoDup (current_path ++ next_node :: rest) ->
    linked G (next_node :: rest) ->
    last (next_node :: rest) next_node = target ->
    In (current_path ++ next_node :: rest)
       (simple_paths_from G target budget current_path next_node).
Proof.
  induction rest as [|v rest IH]; intros b cur u Hlen Hnd Hl Hlast.
  - simpl in Hlast. subst target.
    destruct b; simpl; rewrite Z.eqb_refl; left; reflexivity.
  - destruct b as [|b]; [simpl in Hlen; lia|].
    assert (Hne : u <> target).
    { intros ->. apply NoDup_remove_2 in Hnd. apply Hnd.
      apply in_or_app. right. rewrite <- Hlast at 1.
      change (last (target :: v :: rest) target) with (last (v :: rest) target).
      apply last_in. }
    assert (Huv : In v (successors G u)).
    { destruct (Hl u v (or_introl eq_refl)) as [d Hd].
      exact (get_edge_successors G u v d Hd). }
    assert (Hnew : on_path v (cur ++ [u]) = false).
    { destruct (on_path v (cur ++ [u])) eqn:E; [|reflexivity].
      unfold on_path in E. apply existsb_exists in E. destruct E as (x & Hx & Hxv).
      apply Z.eqb_eq in Hxv. subst x.
      replace (cur ++ u :: v :: rest) with ((cur ++ [u]) ++ v :: rest) in Hnd
        by (rewrite <- app_assoc; reflexivity).
      apply NoDup_remove_2 in Hnd. exfalso. apply Hnd.
      apply in_or_app. left. exact Hx. }
    simpl. apply in_or_app. right.
    destruct (Z.eqb_spec u target) as [E|_]; [contradiction|].
    apply in_flat_map. exists v. split; [exact Huv|]. rewrite Hnew.
    replace (cur ++ u :: v :: rest) with ((cur ++ [u]) ++ v :: rest)
      by (rewrite <- app_assoc; reflexivity).
    apply IH.
    + simpl in Hlen. lia.
    + rewrite <- app_assoc. exact Hnd.
    + exact (linked_tail G u (v :: rest) Hl).
    + rewrite <- Hlast.
      change (last (u :: v :: rest) u) with (last (v :: rest) u).
      apply last_cons_default.
Qed.

(** In a closed graph, the nodes of a path along edges that starts at a
    node are nodes. *)
Lemma linked_nodes (G : DiGraph) (p : path) (s n : node) :
  closed G -> has_node G s = true -> hd_error p = Some s -> linked G p ->
  In n p -> has_node G n = true.
Proof.
  intros Hc Hs Hhd Hl Hin.
  destruct (nodes_of_path p n Hin) as [E|[u Hu]].
  - rewrite Hhd in E. injection E as <-. exact Hs.
  - destruct (Hl u n Hu) as [d Hd]. exact (Hc u n (get_edge_successors G u n d Hd)).
Qed.

(** In a closed graph the enumeration is complete: every path from [source]
    to [target] that goes along edges and repeats no node is enumerated. *)
Lemma all_simple_paths_complete (G : DiGraph) (source target : node) (q : path) :
  closed G ->
  has_node G source = true ->
  has_node G target = true ->
  NoDup q -> hd_error q = Some source -> last q source = target -> linked G q ->
  exists paths, all_simple_paths G source target = Returns paths /\ In q paths.
Proof.
  intros Hc Hs Ht Hnd Hhd Hlast Hl.
  unfold all_simple_paths. rewrite Hs, Ht. simpl. eexists. split; [reflexivity|].
  destruct q as [|x rest]; [discriminate|]. simpl in Hhd. injection Hhd as ->.
  apply (simple_paths_from_complete G target rest (number_of_nodes G - 1) [] source).
  - assert (Hle : (length (source :: rest) <= length (dict_keys (node_attr G)))%nat).
    { apply NoDup_incl_length; [exact Hnd|].
      intros n Hn. apply has_node_in_keys.
      exact (linked_nodes G (source :: rest) source n Hc Hs eq_refl Hl Hn). }
    unfold dict_keys in Hle. rewrite length_map in Hle.
    unfold number_of_nodes. simpl in Hle. lia.
  - exact Hnd.
  - exact Hl.
  - exact Hlast.
Qed.

(** ** The scenario of the specification *)

(** C2: on the four-node graph A->B, B->D, A->C, C->D of the specification,
    built without any weather pass and scored with all weights 1.0,
    [dijkstra_multi_objective] from A to D returns the path A->C->D with score
    256.1, and that is strictly below the score 260.2 of A->B->D.  The
    congestion cells are decimal, so the rows of the routes table are rows of
    floats and so are the costs of the edges. *)
Theorem scenario_best_path :
  build_air_route_graph scenario_airports scenario_routes
    = Returns (scenario_graph, scenario_airports) /\
  edge_list scenario_graph
    = [ (1, 2, mk_edge_data (F 100) (F 10) (F 20) (F 0.1));
        (1, 3, mk_edge_data (F 150) (F 8) (F 25) (F 0.05));
        (2, 4, mk_edge_data (F 100) (F 10) (F 20) (F 0.1));
        (3, 4, mk_edge_data (F 50) (F 8) (F 15) (F 0.05)) ]%Z /\
  all_simple_paths scenario_graph 1 4 = Returns [[1; 2; 4]; [1; 3; 4]]%Z /\
  dijkstra_multi_objective scenario_graph 1 4 unit_weights
    = Returns (Some [1; 3; 4]%Z, 256.1%float) /\
  path_score scenario_graph unit_weights [1; 2; 4]%Z = Returns 260.2%float /\
  (256.1 <? 260.2)%float = true.
Proof.
  repeat split; vm_compute; reflexivity.
Qed.

(** ** Paths without edges *)

(** The claim C5 fails on a single-node path: the sums are zero, and
    [analyze_path] raises instead of giving an average of 0 or NaN. *)
Lemma analyze_single_node_raises_example :
  path_totals scenario_graph [1%Z] = Returns zero_totals /\
  analyze_path scenario_graph [1%Z] = Raises ZeroDivisionError.
Proof.
  split; vm_compute; reflexivity.
Qed.

(** C5, as the code has it: for every graph, the aggregate cost of a
    single-node path is zero in all four attributes (the integer 0 the sums
    start from), for the scorer and for the analyzer alike, and
    [analyze_path] raises [ZeroDivisionError] on it (the divisor
    [len(path) - 1] is 0); on the empty path the divisor is -1 and
    [analyze_path] returns zero sums with an average congestion of [-0.0]. *)
Theorem analyze_path_without_edges (G : DiGraph) (n : node) :
  path_totals G [n] = Returns zero_totals /\
  analyze_sums G [n] = Returns (I 0, I 0, I 0, I 0) /\
  analyze_path G [n] = Raises ZeroDivisionError /\
  analyze_path G [] = Returns (mk_metrics (I 0) (I 0) (I 0) (-0)%float).
Proof.
  repeat split; reflexivity.
Qed.

(** ** Paths that leave the graph *)

(** C9: for every graph and every path with a consecutive pair [(u, v)] for
    which the graph has no edge from [u] to [v], [analyze_path] raises (the
    [KeyError] of the failed lookup [graph[u][v]]) and returns no metrics. *)
Theorem analyze_path_missing_edge (G : DiGraph) (p : path) (u v : node) :
  In (u, v) (steps p) ->
  raised (get_edge G u v) = true ->
  analyze_path G p = Raises KeyError.
Proof.
  intros Hin Hraised. unfold analyze_path.
  rewrite analyze_sums_along, (edges_along_missing G p u v Hin Hraised).
  reflexivity.
Qed.

Lemma analyze_path_missing_edge_witness :
  In (3, 2)%Z (steps [1; 3; 2; 4]%Z) /\
  raised (get_edge scenario_graph 3 2) = true /\
  analyze_path scenario_graph [1; 3; 2; 4]%Z = Raises KeyError.
Proof.
  assert (Hin : In (3, 2)%Z (steps [1; 3; 2; 4]%Z)) by (simpl; auto).
  assert (Hr : raised (get_edge scenario_graph 3 2) = true) by reflexivity.
  split; [exact Hin|]. split; [exact Hr|].
  exact (analyze_path_missing_edge scenario_graph [1; 3; 2; 4]%Z 3 2 Hin Hr).
Defined.

(** ** The analyzer against the scorer *)

(** The claim C8 fails where a sum leaves the range of the cells: the
    distances of a routes table of integers are [int64], and so are their
    sums.  Two distances of [2^63 - 1] add up to [2^64 - 2]; the scorer and
    the analyzer agree on the total distance, and both have -2. *)
Lemma analyze_wraps_example :
  build_air_route_graph [] far_routes = Returns (far_graph, []) /\
  edges_along far_graph [1; 2; 3]%Z
    = Returns [ mk_edge_data (I 9223372036854775807) (I 1) (I 1) (I 1);
                mk_edge_data (I 9223372036854775807) (I 1) (I 1) (I 1) ] /\
  path_totals far_graph [1; 2; 3]%Z = Returns (mk_totals (I (-2)) (I 2) (I 2) (I 2)) /\
  analyze_path far_graph [1; 2; 3]%Z = Returns (mk_metrics (I (-2)) (I 2) (I 2) 1%float) /\
  dijkstra_multi_objective far_graph 1 3 unit_weights = Returns (Some [1; 2; 3]%Z, 4%float) /\
  (-2 <? 9223372036854775807 + 9223372036854775807)%Z = true.
Proof.
  repeat split; vm_compute; reflexivity.
Qed.

(** C8, as the code has it: for every graph and every path whose consecutive
    edges all exist (their data being [es], in path order), the four sums of
    [analyze_path] are the very values the scoring loop of
    [dijkstra_multi_objective] accumulates for that path, each the
    left-to-right sum of one attribute over the consecutive pairs in the
    arithmetic of the cells; the only further step of [analyze_path] is the
    division of the congestion sum by [len(path) - 1]; and when
    [dijkstra_multi_objective] returns that path, its score is the weighted
    sum of these four sums.  The total distance is the exact sum of the
    distances when these are integers that are not negative and add up to
    less than [2^63], and the float sum from left to right when they are
    floats. *)
Theorem analyze_agrees_with_scorer (G : DiGraph) (p : path) (es : list edge_data) :
  edges_along G p = Returns es ->
  path_totals G p
    = Returns (mk_totals (sum_of weight es) (sum_of duration es)
                         (sum_of fuel es) (sum_of congestion es)) /\
  analyze_sums G p
    = Returns (sum_of weight es, sum_of duration es, sum_of fuel es, sum_of congestion es) /\
  analyze_path G p
    = (avg <- py_div (sum_of congestion es) (Z.of_nat (length p) - 1) ;;
       Returns (mk_metrics (sum_of weight es) (sum_of duration es) (sum_of fuel es) avg)) /\
  (forall (w : weight_vector) (start end_ : node) (score : float),
      dijkstra_multi_objective G start end_ w = Returns (Some p, score) ->
      score = weighted_sum w (mk_totals (sum_of weight es) (sum_of duration es)
                                        (sum_of fuel es) (sum_of congestion es))) /\
  (forall zs : list Z,
      map weight es = map I zs ->
      Forall (fun z => (0 <= z)%Z) zs ->
      (fold_right Z.add 0%Z zs < 2 ^ 63)%Z ->
      sum_of weight es = I (fold_right Z.add 0%Z zs)) /\
  (forall fs : list float,
      map weight es = map F fs ->
      to_float (sum_of weight es) = fold_left (fun acc x => (acc + x)%float) fs 0%float).
Proof.
  intros Hes. unfold analyze_path.
  rewrite path_totals_along, analyze_sums_along, Hes. simpl.
  split; [reflexivity|]. split; [reflexivity|]. split; [reflexivity|]. split; [|split].
  - intros w start end_ score Hrun.
    destruct (dijkstra_selected G w start end_ _ Hrun) as (paths & _ & _ & Hbest).
    simpl in Hbest. destruct Hbest as (_ & Hscore & _).
    rewrite path_score_along, Hes in Hscore. simpl in Hscore.
    injection Hscore as <-. reflexivity.
  - intros zs Hmap Hpos Hsum. unfold sum_of.
    exact (int_sum_exact weight es zs 0%Z Hmap (Z.le_refl 0) Hpos Hsum).
  - intros fs Hmap. unfold sum_of.
    exact (float_sum weight es fs (I 0) Hmap).
Qed.

Lemma analyze_agrees_with_scorer_witness :
  edges_along scenario_graph [1; 3; 4]%Z
    = Returns [ mk_edge_data (F 150) (F 8) (F 25) (F 0.05);
                mk_edge_data (F 50) (F 8) (F 15) (F 0.05) ] /\
  analyze_path scenario_graph [1; 3; 4]%Z
    = Returns (mk_metrics (F 200) (F 16) (F 40) 0.05%float).
Proof.
  split; [reflexivity|].
  destruct (analyze_agrees_with_scorer scenario_graph [1; 3; 4]%Z
              [ mk_edge_data (F 150) (F 8) (F 25) (F 0.05);
                mk_edge_data (F 50) (F 8) (F 15) (F 0.05) ] eq_refl)
    as (_ & _ & H & _).
  rewrite H. reflexivity.
Defined.

(** ** The best path *)

(** The claim C1 fails where a score is NaN: a missing cell of the routes
    table is read as NaN, the path through that edge scores NaN, and the
    score 4 of the path returned is not [<=] NaN. *)
Lemma best_path_nan_example :
  let G := graph_of [] nan_routes in
  build_air_route_graph [] nan_routes = Returns (G, []) /\
  all_simple_paths G 1 2 = Returns [[1; 2]; [1; 3; 2]]%Z /\
  dijkstra_multi_objective G 1 2 unit_weights = Returns (Some [1; 2]%Z, 4%float) /\
  path_score G unit_weights [1; 3; 2]%Z = Returns nan /\
  (4 <=? nan)%float = false.
Proof.
  repeat split; vm_compute; reflexivity.
Qed.

(** C1, as the code has it: when [dijkstra_multi_objective] returns a path,
    that path is one of the enumerated paths, its score is the weighted sum of
    the four attribute sums over its edges (each sum accumulated from left to
    right in the arithmetic of the cells, and taken as a float by the product
    with its weight), no enumerated path scores strictly less, and the score
    is less than or equal to the score of every enumerated path whose score
    is not NaN. *)
Theorem best_path_is_minimal (G : DiGraph) (w : weight_vector) (start end_ : node)
    (p : path) (s : float) :
  dijkstra_multi_objective G start end_ w = Returns (Some p, s) ->
  exists paths,
    all_simple_paths G start end_ = Returns paths /\
    In p paths /\
    (exists es, edges_along G p = Returns es /\
       s = (w_distance w * to_float (sum_of weight es) +
            w_duration w * to_float (sum_of duration es) +
            w_fuel w * to_float (sum_of fuel es) +
            w_congestion w * to_float (sum_of congestion es))%float) /\
    forall q, In q paths ->
      exists sq, path_score G w q = Returns sq /\
                 (sq <? s)%float = false /\
                 (is_nan sq = false -> (s <=? sq)%float = true).
Proof.
  intros Hrun. destruct (dijkstra_selected G w start end_ _ Hrun) as (paths & Hpaths & Hall & Hb).
  exists paths. split; [exact Hpaths|].
  simpl in Hall, Hb. destruct Hb as (Hin & Hp & Hinf).
  split; [exact Hin|]. split.
  - rewrite path_score_along in Hp.
    destruct (edges_along G p) as [es|e]; [|discriminate].
    exists es. split; [reflexivity|]. simpl in Hp. injection Hp as <-. reflexivity.
  - intros q Hq. destruct (Hall q Hq) as (sq & Hsq & Hge).
    exists sq. split; [exact Hsq|]. split; [exact Hge|].
    intros Hnan. apply FloatOrder.ltb_false_leb; [exact Hge | exact Hnan|].
    exact (proj1 (FloatOrder.ltb_not_nan _ _ Hinf)).
Qed.

Lemma best_path_is_minimal_witness :
  exists paths,
    all_simple_paths scenario_graph 1 4 = Returns paths /\
    In [1; 3; 4]%Z paths /\
    (exists es, edges_along scenario_graph [1; 3; 4]%Z = Returns es /\
       256.1%float
       = (w_distance unit_weights * to_float (sum_of weight es) +
          w_duration unit_weights * to_float (sum_of duration es) +
          w_fuel unit_weights * to_float (sum_of fuel es) +
          w_congestion unit_weights * to_float (sum_of congestion es))%float) /\
    forall q, In q paths ->
      exists sq, path_score scenario_graph unit_weights q = Returns sq /\
                 (sq <? 256.1)%float = false /\
                 (is_nan sq = false -> (256.1 <=? sq)%float = true).
Proof.
  apply (best_path_is_minimal scenario_graph unit_weights 1 4 [1; 3; 4]%Z 256.1%float).
  vm_compute. reflexivity.
Defined.

(** The claim C6 fails where the minimal score is infinite: with an infinite
    weight both paths of the scenario score infinity, and no path is
    returned. *)
Lemma tie_at_infinity_example :
  let w := mk_weights infinity 1 1 1 in
  all_simple_paths scenario_graph 1 4 = Returns [[1; 2; 4]; [1; 3; 4]]%Z /\
  path_score scenario_graph w [1; 2; 4]%Z = Returns infinity /\
  path_score scenario_graph w [1; 3; 4]%Z = Returns infinity /\
  dijkstra_multi_objective scenario_graph 1 4 w = Returns (None, infinity).
Proof.
  repeat split; vm_compute; reflexivity.
Qed.

(** C6, as the code has it: let [p] be the first enumerated path that attains
    the minimal score [s] (every enumerated path scores at least [s], and the
    paths enumerated before [p] do not score [s]), whatever the number of
    later paths that score [s] too.  If [s] is strictly below infinity then
    [dijkstra_multi_objective] returns exactly [p], with score [s]. *)
Theorem tie_keeps_first_found (G : DiGraph) (w : weight_vector) (start end_ : node)
    (before after : list path) (p : path) (s : float) :
  all_simple_paths G start end_ = Returns (before ++ p :: after) ->
  path_score G w p = Returns s ->
  (forall q sq, In q (before ++ p :: after) -> path_score G w q = Returns sq ->
                (s <=? sq)%float = true) ->
  (forall q sq, In q before -> path_score G w q = Returns sq -> (sq =? s)%float = false) ->
  (s <? infinity)%float = true ->
  dijkstra_multi_objective G start end_ w = Returns (Some p, s).
Proof.
  intros Hpaths Hp Hmin Hfirst Hinf.
  unfold dijkstra_multi_objective. rewrite Hpaths.
  unfold select_best. rewrite for_each_app.
  destruct (loop_stays_above G w s before (None, infinity) Hinf) as (best & Hrun & Habove).
  { intros q Hq.
    destruct (enumerated_path_score G w start end_ _ q Hpaths) as [sq Hsq].
    { apply in_or_app. left. exact Hq. }
    exists sq. split; [exact Hsq|].
    apply FloatOrder.leb_neqb_ltb.
    - apply (Hmin q sq); [apply in_or_app; left; exact Hq | exact Hsq].
    - exact (Hfirst q sq Hq Hsq). }
  rewrite Hrun. simpl. unfold consider at 1. rewrite Hp. simpl. rewrite Habove.
  apply loop_keeps_incumbent. intros q Hq.
  destruct (enumerated_path_score G w start end_ _ q Hpaths) as [sq Hsq].
  { apply in_or_app. right. right. exact Hq. }
  exists sq. split; [exact Hsq|].
  apply FloatOrder.leb_ltb_false.
  apply (Hmin q sq); [apply in_or_app; right; right; exact Hq | exact Hsq].
Qed.

Lemma tie_keeps_first_found_witness :
  all_simple_paths tie_graph 1 4 = Returns ([[1; 2; 4]] ++ [1; 3; 4] :: [[1; 5; 4]])%Z /\
  path_score tie_graph unit_weights [1; 3; 4]%Z = Returns 8%float /\
  path_score tie_graph unit_weights [1; 5; 4]%Z = Returns 8%float /\
  dijkstra_multi_objective tie_graph 1 4 unit_weights = Returns (Some [1; 3; 4]%Z, 8%float).
Proof.
  split; [reflexivity|]. split; [reflexivity|]. split; [reflexivity|].
  apply (tie_keeps_first_found tie_graph unit_weights 1 4
           [[1; 2; 4]]%Z [[1; 5; 4]]%Z [1; 3; 4]%Z 8%float).
  - reflexivity.
  - reflexivity.
  - intros q sq [<-|[<-|[<-|[]]]] Hsq; vm_compute in Hsq;
      injection Hsq as <-; reflexivity.
  - intros q sq [<-|[]] Hsq; vm_compute in Hsq; injection Hsq as <-; reflexivity.
  - reflexivity.
Defined.


(** ** Requests without a route *)

(** The claim C3 fails on a node that is not in the graph: the scenario
    graph has the nodes 1 to 4, and a request to or from 9 ends in
    [NodeNotFound], which the handler for [NetworkXNoPath] does not catch. *)
Lemma absent_node_raises :
  has_node scenario_graph 9 = false /\
  dijkstra_multi_objective scenario_graph 1 9 unit_weights = Raises NodeNotFound /\
  dijkstra_multi_objective scenario_graph 9 1 unit_weights = Raises NodeNotFound.
Proof.
  repeat split; reflexivity.
Qed.

(** C3, as the code has it: for every graph, weight vector and pair of
    nodes, a start or an end that is not a node of the graph makes
    [dijkstra_multi_objective] raise [NodeNotFound]; when both are nodes and
    there is no route from start to end (no sequence of nodes without
    repetition that starts at [start], ends at [end_] and goes along edges),
    it returns no path and an infinite score, without raising. *)
Theorem request_without_route (G : DiGraph) (w : weight_vector) (start end_ : node) :
  (has_node G start = false \/ has_node G end_ = false ->
   dijkstra_multi_objective G start end_ w = Raises NodeNotFound) /\
  (has_node G start = true -> has_node G end_ = true ->
   (forall q, NoDup q -> hd_error q = Some start -> last q start = end_ ->
              linked G q -> False) ->
   dijkstra_multi_objective G start end_ w = Returns (None, infinity)).
Proof.
  split.
  - intros [H|H]; [apply dijkstra_absent_start | apply dijkstra_absent_end]; exact H.
  - intros Hs He Hnone. apply dijkstra_no_path.
    destruct (all_simple_paths G start end_) as [paths|e] eqn:E.
    + destruct paths as [|q paths]; [reflexivity|]. exfalso.
      destruct (all_simple_paths_simple G start end_ _ q E (or_introl eq_refl))
        as (Hnd & Hhd & Hlast).
      exact (Hnone q Hnd Hhd Hlast
               (all_simple_paths_linked G start end_ _ q E (or_introl eq_refl))).
    + unfold all_simple_paths in E. rewrite Hs, He in E. discriminate.
Qed.

Lemma request_without_route_witness :
  dijkstra_multi_objective scenario_graph 9 1 unit_weights = Raises NodeNotFound /\
  dijkstra_multi_objective scenario_graph 1 9 unit_weights = Raises NodeNotFound /\
  dijkstra_multi_objective scenario_graph 4 1 unit_weights = Returns (None, infinity).
Proof.
  split; [|split].
  - apply (proj1 (request_without_route scenario_graph unit_weights 9 1)).
    left. reflexivity.
  - apply (proj1 (request_without_route scenario_graph unit_weights 1 9)).
    right. reflexivity.
  - apply (proj2 (request_without_route scenario_graph unit_weights 4 1));
      [reflexivity | reflexivity |].
    intros [|x [|y q]] _ Hhd Hlast Hl; [discriminate | |].
    + simpl in Hhd, Hlast. injection Hhd as ->. discriminate.
    + simpl in Hhd. injection Hhd as ->.
      destruct (Hl 4%Z y (or_introl eq_refl)) as [d Hd].
      vm_compute in Hd. discriminate.
Defined.

(** ** Building the graph *)

Lemma dict_get_set {V : Type} (k k' : node) (v : V) (d : dict V) :
  dict_get k (dict_set k' v d) = if Z.eqb k k' then Some v else dict_get k d.
Proof.
  induction d as [|[k0 v0] d IH]; simpl.
  - destruct (Z.eqb k k'); reflexivity.
  - destruct (Z.eqb_spec k' k0) as [->|Hne]; simpl.
    + destruct (Z.eqb k k0); reflexivity.
    + rewrite IH. destruct (Z.eqb_spec k k0) as [->|Hne']; [|reflexivity].
      destruct (Z.eqb_spec k0 k'); [congruence | reflexivity].
Qed.

Lemma dict_mem_set {V : Type} (k k' : node) (v : V) (d : dict V) :
  dict_mem k (dict_set k' v d) = Z.eqb k k' || dict_mem k d.
Proof.
  unfold dict_mem. rewrite dict_get_set. destruct (Z.eqb k k'); reflexivity.
Qed.

Lemma dict_mem_get_none {V : Type} (k : node) (d : dict V) :
  dict_mem k d = false -> dict_get k d = None.
Proof.
  unfold dict_mem. destruct (dict_get k d); [discriminate | reflexivity].
Qed.

Lemma same_keys_add_node (G : DiGraph) (n : node) (a : node_data) :
  same_keys G -> same_keys (add_node G n a).
Proof.
  intros H m. unfold add_node.
  destruct (dict_mem n (adj G)) eqn:E; simpl; rewrite !dict_mem_set, H.
  - destruct (Z.eqb_spec m n) as [->|]; [rewrite E|]; reflexivity.
  - reflexivity.
Qed.

Lemma node_attr_add_node (G : DiGraph) (n m : node) (a : node_data) :
  dict_get m (node_attr (add_node G n a))
  = if Z.eqb m n then Some (Some a) else dict_get m (node_attr G).
Proof.
  unfold add_node. destruct (dict_mem n (adj G)); simpl; apply dict_get_set.
Qed.

Lemma get_edge_add_node (G : DiGraph) (n : node) (a : node_data) (u v : node) :
  get_edge (add_node G n a) u v = get_edge G u v.
Proof.
  unfold add_node, get_edge.
  destruct (dict_mem n (adj G)) eqn:E; simpl; [reflexivity|].
  rewrite dict_get_set. destruct (Z.eqb_spec u n) as [->|]; [|reflexivity].
  rewrite (dict_mem_get_none n (adj G) E). reflexivity.
Qed.

Lemma same_keys_ensure_node (G : DiGraph) (n : node) :
  same_keys G -> same_keys (ensure_node G n).
Proof.
  intros H m. unfold ensure_node.
  destruct (dict_mem n (adj G)); simpl; [apply H|].
  rewrite !dict_mem_set, H. reflexivity.
Qed.

Lemma node_attr_ensure_node (G : DiGraph) (n m : node) :
  same_keys G ->
  dict_get m (node_attr (ensure_node G n))
  = match dict_get m (node_attr G) with
    | Some x => Some x
    | None => if Z.eqb m n then Some None else None
    end.
Proof.
  intros H. unfold ensure_node.
  destruct (dict_mem n (adj G)) eqn:E; simpl.
  - destruct (dict_get m (node_attr G)) eqn:Em; [reflexivity|].
    destruct (Z.eqb_spec m n) as [->|]; [|reflexivity].
    rewrite <- H in E. unfold dict_mem in E. rewrite Em in E. discriminate.
  - rewrite dict_get_set. destruct (Z.eqb_spec m n) as [->|].
    + rewrite <- H in E. rewrite (dict_mem_get_none n _ E). reflexivity.
    + destruct (dict_get m (node_attr G)); reflexivity.
Qed.

Lemma get_edge_ensure_node (G : DiGraph) (n u v : node) :
  get_edge (ensure_node G n) u v = get_edge G u v.
Proof.
  unfold ensure_node, get_edge.
  destruct (dict_mem n (adj G)) eqn:E; simpl; [reflexivity|].
  rewrite dict_get_set. destruct (Z.eqb_spec u n) as [->|]; [|reflexivity].
  rewrite (dict_mem_get_none n (adj G) E). reflexivity.
Qed.

Lemma dict_mem_ensure_node (G : DiGraph) (n m : node) :
  dict_mem m (adj (ensure_node G n)) = Z.eqb m n || dict_mem m (adj G).
Proof.
  unfold ensure_node. destruct (dict_mem n (adj G)) eqn:E; simpl.
  - destruct (Z.eqb_spec m n) as [->|]; [rewrite E|]; reflexivity.
  - apply dict_mem_set.
Qed.

Lemma same_keys_add_edge (G : DiGraph) (u v : node) (d : edge_data) :
  same_keys G -> same_keys (add_edge G u v d).
Proof.
  intros H m. unfold add_edge. simpl. rewrite dict_mem_set.
  assert (H1 := same_keys_ensure_node (ensure_node G u) v (same_keys_ensure_node G u H)).
  rewrite (H1 m). rewrite !dict_mem_ensure_node.
  destruct (Z.eqb m u); simpl; [|reflexivity].
  destruct (Z.eqb m v); reflexivity.
Qed.

Lemma node_attr_add_edge (G : DiGraph) (u v m : node) (d : edge_data) :
  same_keys G ->
  dict_get m (node_attr (add_edge G u v d))
  = match dict_get m (node_attr G) with
    | Some x => Some x
    | None => if Z.eqb m u || Z.eqb m v then Some None else None
    end.
Proof.
  intros H. unfold add_edge. simpl.
  rewrite node_attr_ensure_node by (apply same_keys_ensure_node; exact H).
  rewrite node_attr_ensure_node by exact H.
  destruct (dict_get m (node_attr G)); [reflexivity|].
  destruct (Z.eqb m u); reflexivity.
Qed.

Lemma get_edge_add_edge (G : DiGraph) (u v a b : node) (d : edge_data) :
  get_edge (add_edge G u v d) a b
  = if Z.eqb a u && Z.eqb b v then Returns d else get_edge G a b.
Proof.
  rewrite <- (get_edge_ensure_node G u a b).
  rewrite <- (get_edge_ensure_node (ensure_node G u) v a b).
  unfold add_edge. set (G1 := ensure_node (ensure_node G u) v).
  unfold get_edge. simpl. rewrite dict_get_set.
  destruct (Z.eqb_spec a u) as [->|]; simpl; [|reflexivity].
  rewrite dict_get_set.
  destruct (Z.eqb b v); [reflexivity|].
  destruct (dict_get u (adj G1)); reflexivity.
Qed.

Lemma dict_mem_keys {V : Type} (k : node) (d : dict V) :
  dict_mem k d = false -> ~ In k (dict_keys d).
Proof.
  unfold dict_mem. induction d as [|[k' v'] d IH]; simpl; [tauto|].
  destruct (Z.eqb_spec k k') as [->|Hne]; [discriminate|].
  intros H [E|Hin]; [congruence | exact (IH H Hin)].
Qed.

Lemma dict_keys_set {V : Type} (k : node) (v : V) (d : dict V) :
  dict_keys (dict_set k v d)
  = if dict_mem k d then dict_keys d else dict_keys d ++ [k].
Proof.
  unfold dict_mem. induction d as [|[k' v'] d IH]; simpl; [reflexivity|].
  destruct (Z.eqb k k'); simpl; [reflexivity|].
  rewrite IH. destruct (dict_get k d); reflexivity.
Qed.

Lemma dict_set_NoDup {V : Type} (k : node) (v : V) (d : dict V) :
  NoDup (dict_keys d) -> NoDup (dict_keys (dict_set k v d)).
Proof.
  intros H. rewrite dict_keys_set. destruct (dict_mem k d) eqn:E; [exact H|].
  apply NoDup_snoc; [exact H | exact (dict_mem_keys k d E)].
Qed.

Lemma dict_set_Forall {V : Type} (P : V -> Prop) (k : node) (v : V) (d : dict V) :
  Forall (fun entry => P (snd entry)) d -> P v ->
  Forall (fun entry => P (snd entry)) (dict_set k v d).
Proof.
  intros Hd Hv. induction Hd as [|[k' v'] d Hk Hd IH]; simpl.
  - constructor; [exact Hv | constructor].
  - destruct (Z.eqb k k'); constructor; try assumption.
Qed.

Lemma dict_get_Forall {V : Type} (P : V -> Prop) (k : node) (v : V) (d : dict V) :
  Forall (fun entry => P (snd entry)) d -> dict_get k d = Some v -> P v.
Proof.
  intros Hd. induction Hd as [|[k' v'] d Hk Hd IH]; simpl; [discriminate|].
  destruct (Z.eqb k k'); [intros E; injection E as <-; exact Hk | exact IH].
Qed.

Lemma well_keyed_add_node (G : DiGraph) (n : node) (a : node_data) :
  well_keyed G -> well_keyed (add_node G n a).
Proof.
  intros (Hn & Ha & Hs). unfold add_node, well_keyed.
  destruct (dict_mem n (adj G)); simpl.
  - split; [apply dict_set_NoDup; exact Hn|]. split; assumption.
  - split; [apply dict_set_NoDup; exact Hn|].
    split; [apply dict_set_NoDup; exact Ha|].
    apply (dict_set_Forall (fun nbrs => NoDup (dict_keys nbrs))); [exact Hs | constructor].
Qed.

Lemma well_keyed_ensure_node (G : DiGraph) (n : node) :
  well_keyed G -> well_keyed (ensure_node G n).
Proof.
  intros (Hn & Ha & Hs). unfold ensure_node, well_keyed.
  destruct (dict_mem n (adj G)); simpl.
  - split; [exact Hn|]. split; assumption.
  - split; [apply dict_set_NoDup; exact Hn|].
    split; [apply dict_set_NoDup; exact Ha|].
    apply (dict_set_Forall (fun nbrs => NoDup (dict_keys nbrs))); [exact Hs | constructor].
Qed.

Lemma well_keyed_add_edge (G : DiGraph) (u v : node) (d : edge_data) :
  well_keyed G -> well_keyed (add_edge G u v d).
Proof.
  intros H.
  assert (H1 := well_keyed_ensure_node (ensure_node G u) v (well_keyed_ensure_node G u H)).
  unfold add_edge. set (G1 := ensure_node (ensure_node G u) v) in *.
  destruct H1 as (Hn & Ha & Hs). unfold well_keyed. simpl.
  split; [exact Hn|]. split; [apply dict_set_NoDup; exact Ha|].
  apply (dict_set_Forall (fun nbrs => NoDup (dict_keys nbrs))); [exact Hs|].
  apply dict_set_NoDup.
  destruct (dict_get u (adj G1)) as [nbrs|] eqn:E; [|constructor].
  exact (dict_get_Forall (fun nbrs => NoDup (dict_keys nbrs)) u nbrs (adj G1) Hs E).
Qed.

Lemma fold_left_snoc {A B : Type} (f : A -> B -> A) (l : list B) (x : B) (a : A) :
  fold_left f (l ++ [x]) a = f (fold_left f l a) x.
Proof.
  rewrite fold_left_app. reflexivity.
Qed.

Lemma well_keyed_graph_from (ns : list node_entry) (es : list edge_entry) :
  well_keyed (graph_from ns es).
Proof.
  unfold graph_from. induction es as [|e es IH] using rev_ind.
  - simpl. induction ns as [|e ns IH] using rev_ind.
    + repeat split; constructor.
    + rewrite fold_left_snoc. apply well_keyed_add_node. exact IH.
  - rewrite fold_left_snoc. apply well_keyed_add_edge. exact IH.
Qed.

(** After the first loop: the nodes are the ids of the airport rows, each
    with the attributes of its last row, and there is no edge. *)
Lemma airports_loaded (ns : list node_entry) :
  let G := fold_left put_node ns empty_graph in
  same_keys G /\
  (forall n, dict_get n (node_attr G)
             = option_map (fun e => Some (e_data e)) (last_node n ns)) /\
  (forall u v, get_edge G u v = Raises KeyError).
Proof.
  induction ns as [|e ns IH] using rev_ind; simpl.
  - repeat split; intros n; reflexivity.
  - rewrite fold_left_snoc. destruct IH as (Hk & Hn & He).
    split; [apply same_keys_add_node; exact Hk|]. split.
    + intros n. unfold put_node. rewrite node_attr_add_node, Hn.
      unfold last_node. rewrite rev_app_distr. simpl.
      rewrite (Z.eqb_sym (e_id e) n). destruct (Z.eqb n (e_id e)); reflexivity.
    + intros u v. unfold put_node. rewrite get_edge_add_node. apply He.
Qed.

(** After the second loop, from a graph [G0]: the nodes of [G0] keep their
    attributes, the other endpoints of route rows are nodes without
    attributes, and an edge has the data of the last route row between its
    endpoints. *)
Lemma routes_loaded (G0 : DiGraph) (es : list edge_entry) :
  same_keys G0 ->
  let G := fold_left put_edge es G0 in
  same_keys G /\
  (forall n, dict_get n (node_attr G)
             = match dict_get n (node_attr G0) with
               | Some x => Some x
               | None => if endpoint_of n es then Some None else None
               end) /\
  (forall u v, get_edge G u v
               = match last_edge u v es with
                 | Some e => Returns (e_costs e)
                 | None => get_edge G0 u v
                 end).
Proof.
  intros H0. induction es as [|e es IH] using rev_ind; simpl.
  - split; [exact H0|]. split; [|reflexivity].
    intros n. destruct (dict_get n (node_attr G0)); reflexivity.
  - rewrite fold_left_snoc. destruct IH as (Hk & Hn & He).
    split; [apply same_keys_add_edge; exact Hk|]. split.
    + intros n. unfold put_edge. rewrite node_attr_add_edge by exact Hk. rewrite Hn.
      unfold endpoint_of. rewrite existsb_app. simpl. rewrite orb_false_r.
      rewrite (Z.eqb_sym (e_from e) n), (Z.eqb_sym (e_to e) n).
      destruct (dict_get n (node_attr G0)); [reflexivity|].
      destruct (existsb _ es); [reflexivity|]. reflexivity.
    + intros u v. unfold put_edge. rewrite get_edge_add_edge, He.
      unfold last_edge. rewrite rev_app_distr. simpl.
      rewrite (Z.eqb_sym (e_from e) u), (Z.eqb_sym (e_to e) v).
      destruct (Z.eqb u (e_from e) && Z.eqb v (e_to e)); reflexivity.
Qed.

(** The graph of the entries: its nodes and its edges. *)
Lemma graph_from_loaded (ns : list node_entry) (es : list edge_entry) :
  let G := graph_from ns es in
  same_keys G /\
  (forall n, dict_get n (node_attr G)
             = match last_node n ns with
               | Some e => Some (Some (e_data e))
               | None => if endpoint_of n es then Some None else None
               end) /\
  (forall u v, get_edge G u v
               = match last_edge u v es with
                 | Some e => Returns (e_costs e)
                 | None => Raises KeyError
                 end).
Proof.
  destruct (airports_loaded ns) as (Hk & Hn & He).
  destruct (routes_loaded (fold_left put_node ns empty_graph) es Hk) as (Hk' & Hn' & He').
  split; [exact Hk'|]. split.
  - intros n. unfold graph_from. rewrite Hn', Hn. destruct (last_node n ns); reflexivity.
  - intros u v. unfold graph_from. rewrite He', He. reflexivity.
Qed.

(** What [int] raises on a number: [ValueError] on NaN, [OverflowError] on
    an infinity, and nothing else. *)
Lemma py_int_raises (x : num) (e : exn) :
  py_int x = Raises e ->
  exists f, x = F f /\
    ((is_nan f = true /\ e = ValueError) \/ (is_infinity f = true /\ e = OverflowError)).
Proof.
  destruct x as [z|f]; simpl; [discriminate|].
  unfold int_of_float. intros H. exists f. split; [reflexivity|].
  destruct (Prim2SF f) as [s|s| |s m ex] eqn:E; try discriminate.
  - right. injection H as <-. split; [|reflexivity].
    unfold is_infinity. rewrite eqb_spec, abs_spec, E. destruct s; reflexivity.
  - left. injection H as <-. split; [|reflexivity].
    unfold is_nan. rewrite eqb_spec, E. reflexivity.
Qed.

Lemma collect_raises_at {A B : Type} (f : A -> outcome B) (l : list A) (e : exn) :
  collect f l = Raises e -> exists a, In a l /\ f a = Raises e.
Proof.
  induction l as [|a l IH]; simpl; [discriminate|].
  destruct (f a) as [b|e'] eqn:E; simpl.
  - destruct (collect f l) as [bs|e'']; simpl; [discriminate|].
    intros H. injection H as <-. destruct (IH eq_refl) as (a' & Hin & Ha').
    exists a'. split; [right; exact Hin | exact Ha'].
  - intros H. injection H as <-. exists a. split; [left; reflexivity | exact E].
Qed.

Lemma airport_entry_raises (row : airport_row) (e : exn) :
  airport_entry row = Raises e -> e = ValueError \/ e = OverflowError.
Proof.
  unfold airport_entry. destruct (py_int (a_id row)) as [n|e'] eqn:E; simpl; [discriminate|].
  intros H. injection H as <-.
  destruct (py_int_raises _ _ E) as (f & _ & [[_ ->]|[_ ->]]); auto.
Qed.

Lemma route_entry_raises (row : route_row) (e : exn) :
  route_entry row = Raises e -> e = ValueError \/ e = OverflowError.
Proof.
  unfold route_entry. destruct (py_int (r_from row)) as [u|e'] eqn:E; simpl.
  - destruct (py_int (r_to row)) as [v|e'] eqn:E'; simpl; [discriminate|].
    intros H. injection H as <-.
    destruct (py_int_raises _ _ E') as (f & _ & [[_ ->]|[_ ->]]); auto.
  - intros H. injection H as <-.
    destruct (py_int_raises _ _ E) as (f & _ & [[_ ->]|[_ ->]]); auto.
Qed.

(** The two loops of [build_air_route_graph], read over the entries of the
    tables. *)
Lemma build_from_entries (airports : list airport_row) (routes : list route_row) :
  build_air_route_graph airports routes
  = (ns <- node_entries airports ;;
     es <- edge_entries routes ;;
     Returns (graph_from ns es, airports)).
Proof.
  unfold build_air_route_graph, node_entries, edge_entries, graph_from.
  rewrite (for_each_ext add_airport
             (fun G row => e <- airport_entry row ;; Returns (put_node G e))).
  2:{ intros G row. unfold add_airport, airport_entry.
      destruct (py_int (a_id row)); reflexivity. }
  rewrite for_each_collect.
  destruct (collect airport_entry (airports_iterrows airports)) as [ns|e]; simpl;
    [|reflexivity].
  rewrite (for_each_ext add_route
             (fun G row => e <- route_entry row ;; Returns (put_edge G e))).
  2:{ intros G row. unfold add_route, route_entry.
      destruct (py_int (r_from row)); simpl; [|reflexivity].
      destruct (py_int (r_to row)); reflexivity. }
  rewrite for_each_collect.
  destruct (collect route_entry (routes_iterrows routes)); reflexivity.
Qed.

Lemma graph_of_entries (airports : list airport_row) (routes : list route_row)
    (ns : list node_entry) (es : list edge_entry) :
  node_entries airports = Returns ns -> edge_entries routes = Returns es ->
  graph_of airports routes = graph_from ns es.
Proof.
  intros Hns Hes. unfold graph_of. rewrite build_from_entries, Hns, Hes. reflexivity.
Qed.

Lemma existsb_find_rev {A : Type} (f : A -> bool) (l : list A) :
  existsb f l = true -> exists a, find f (rev l) = Some a.
Proof.
  intros H. apply existsb_exists in H. destruct H as (a & Hin & Ha).
  destruct (find f (rev l)) as [b|] eqn:E; [eauto|].
  rewrite (find_none f (rev l) E a) in Ha; [discriminate|].
  apply in_rev. rewrite rev_involutive. exact Hin.
Qed.

Lemma find_rev_some {A : Type} (f : A -> bool) (l : list A) (a : A) :
  find f (rev l) = Some a -> In a l /\ f a = true.
Proof.
  intros H. apply find_some in H. destruct H as [Hin Ha].
  split; [apply in_rev; exact Hin | exact Ha].
Qed.

Lemma existsb_as_find_rev {A : Type} (f : A -> bool) (l : list A) :
  existsb f l = match find f (rev l) with Some _ => true | None => false end.
Proof.
  destruct (existsb f l) eqn:E.
  - destruct (existsb_find_rev f l E) as [a ->]. reflexivity.
  - destruct (find f (rev l)) as [a|] eqn:F; [|reflexivity].
    destruct (find_rev_some f l a F) as [Hin Ha].
    rewrite <- E. apply (proj2 (existsb_exists f l)). exists a. split; assumption.
Qed.

(** The claim C4 fails on a route to a node that no airport row declares and
    on a repeated airport id: both tables are loaded without an error; the
    undeclared node 2 becomes a node, and the repeated id 1 is one node with
    the name of its last row. *)
Lemma build_accepts_bad_tables_example :
  let a1 := mk_airport_row (I 1) (Name "A") (F 0) (F 0) in
  let a1' := mk_airport_row (I 1) (Name "Z") (F 5) (F 5) in
  let r12 := mk_route_row (I 1) (I 2) (I 100) (I 10) (I 20) (F 0.1) in
  build_air_route_graph [a1] [r12]
    = Returns (mk_DiGraph
                 [(1%Z, Some (mk_node_data (Name "A") (F 0, F 0))); (2%Z, None)]
                 [(1%Z, [(2%Z, mk_edge_data (F 100) (F 10) (F 20) (F 0.1))]); (2%Z, [])],
               [a1]) /\
  build_air_route_graph [a1; a1'] []
    = Returns (mk_DiGraph [(1%Z, Some (mk_node_data (Name "Z") (F 5, F 5)))] [(1%Z, [])],
               [a1; a1']).
Proof.
  split; reflexivity.
Qed.

(** What [int] makes of the ids: an id of a routes table with a decimal
    cell is read through a float, so that [2^53 + 1] becomes the node
    [2^53]; in a table of integers it is kept; and an empty id cell, which is
    read as NaN, ends the loading with a [ValueError]. *)
Lemma build_id_cells_example :
  edge_entries [mk_route_row (I 9007199254740993) (I 2) (I 1) (I 1) (I 1) (F 0.5)]
    = Returns [mk_edge_entry 9007199254740992 2
                 (mk_edge_data (F 1) (F 1) (F 1) (F 0.5))] /\
  edge_entries [mk_route_row (I 9007199254740993) (I 2) (I 1) (I 1) (I 1) (I 1)]
    = Returns [mk_edge_entry 9007199254740993 2
                 (mk_edge_data (I 1) (I 1) (I 1) (I 1))] /\
  build_air_route_graph [mk_airport_row (F nan) (Name "A") (F 0) (F 0)] []
    = Raises ValueError /\
  build_air_route_graph [] [mk_route_row (I 1) (F infinity) (I 1) (I 1) (I 1) (I 1)]
    = Raises OverflowError.
Proof.
  repeat split; vm_compute; reflexivity.
Qed.

(** C4, as the code has it: [build_air_route_graph] has no check of the
    tables, and fails only where [int] fails on an id ([ValueError] on an
    empty cell, which is NaN, [OverflowError] on an infinite one), in the
    order of the two loops.  Otherwise it returns the airports table with a
    graph whose nodes are exactly the ids of the airport rows and the
    endpoints of the route rows, each once and as [int] has made them from
    the values of [iterrows]: a repeated id is one node with the attributes
    of its last row, and an endpoint that no airport row declares is a node
    without attributes.  Its edges are exactly the pairs of the route rows,
    each with the four cost attributes of the last row for that pair. *)
Theorem build_air_route_graph_loads (airports : list airport_row) (routes : list route_row) :
  match node_entries airports with
  | Raises e =>
      build_air_route_graph airports routes = Raises e /\
      (e = ValueError \/ e = OverflowError)
  | Returns ns =>
      match edge_entries routes with
      | Raises e =>
          build_air_route_graph airports routes = Raises e /\
          (e = ValueError \/ e = OverflowError)
      | Returns es =>
          exists G,
            build_air_route_graph airports routes = Returns (G, airports) /\
            well_keyed G /\
            (forall n, has_node G n = declared ns n || endpoint_of n es) /\
            (forall n, dict_get n (node_attr G)
                       = match last_node n ns with
                         | Some e => Some (Some (e_data e))
                         | None => if endpoint_of n es then Some None else None
                         end) /\
            (forall u v, get_edge G u v
                         = match last_edge u v es with
                           | Some e => Returns (e_costs e)
                           | None => Raises KeyError
                           end)
      end
  end.
Proof.
  rewrite build_from_entries.
  destruct (node_entries airports) as [ns|e] eqn:Hns; simpl.
  - destruct (edge_entries routes) as [es|e] eqn:Hes; simpl.
    + exists (graph_from ns es). split; [reflexivity|].
      split; [apply well_keyed_graph_from|].
      destruct (graph_from_loaded ns es) as (_ & Hn & He).
      split; [|split; [exact Hn | exact He]].
      intros n. unfold has_node, dict_mem. rewrite Hn.
      unfold declared. rewrite existsb_as_find_rev. unfold last_node.
      destruct (find _ (rev ns)); [reflexivity|].
      destruct (endpoint_of n es); reflexivity.
    + split; [reflexivity|].
      destruct (collect_raises_at _ _ _ Hes) as (row & _ & Hrow).
      exact (route_entry_raises row e Hrow).
  - split; [reflexivity|].
    destruct (collect_raises_at _ _ _ Hns) as (row & _ & Hrow).
    exact (airport_entry_raises row e Hrow).
Qed.

(** ** The weather pass *)

Lemma app_eq_length {A : Type} (a1 a2 b1 b2 : list A) :
  length a1 = length a2 -> a1 ++ b1 = a2 ++ b2 -> a1 = a2 /\ b1 = b2.
Proof.
  revert a2. induction a1 as [|x a1 IH]; intros [|y a2]; simpl; try discriminate.
  - intros _ E. split; [reflexivity | exact E].
  - intros L E. injection L as L. injection E as -> E.
    destruct (IH a2 L E) as [-> ->]. split; reflexivity.
Qed.

Section WeatherFacts.

Variable rng : Type.
Variable random : rng -> float * rng.

Lemma draws_length (n : nat) (g : rng) : length (draws random n g) = n.
Proof.
  revert g. induction n as [|n IH]; intros g; simpl; [reflexivity|].
  destruct (random g) as [r g']. simpl. rewrite IH. reflexivity.
Qed.

Lemma draws_add (n m : nat) (g : rng) :
  draws random (n + m) g = draws random n g ++ draws random m (advance random n g).
Proof.
  revert g. induction n as [|n IH]; intros g; simpl; [reflexivity|].
  destruct (random g) as [r g']. simpl. rewrite IH. reflexivity.
Qed.

Lemma advance_add (n m : nat) (g : rng) :
  advance random (n + m) g = advance random m (advance random n g).
Proof.
  revert g. induction n as [|n IH]; intros g; simpl; [reflexivity|]. apply IH.
Qed.

Lemma perturb_edge_eq (d : edge_data) (g : rng) :
  perturb_edge random d g
  = (mk_edge_data (weight d)
                  (F (to_float (duration d) + (0 + (20 - 0) * fst (random g))))
                  (fuel d)
                  (F (to_float (congestion d)
                      + (0 + (0.2 - 0) * fst (random (snd (random g)))))),
     advance random 2 g)%float.
Proof.
  unfold perturb_edge, uniform. simpl.
  destruct (random g) as [r1 g1]. simpl.
  destruct (random g1) as [r2 g2]. reflexivity.
Qed.

Lemma perturb_edge_draws (d : edge_data) : makes_draws random 2 (perturb_edge random d).
Proof.
  split.
  - intros g. rewrite perturb_edge_eq. reflexivity.
  - intros g1 g2. rewrite !perturb_edge_eq. simpl.
    destruct (random g1) as [r1 g1'], (random g2) as [r2 g2']. simpl.
    destruct (random g1') as [r1' g1''], (random g2') as [r2' g2'']. simpl.
    intros E. injection E as -> ->. reflexivity.
Qed.

Lemma dict_map_rng_cons {V : Type} (f : V -> rng -> V * rng) (k : node) (v : V)
    (d : dict V) (g : rng) :
  dict_map_rng f ((k, v) :: d) g
  = ((k, fst (f v g)) :: fst (dict_map_rng f d (snd (f v g))),
     snd (dict_map_rng f d (snd (f v g)))).
Proof.
  simpl. destruct (f v g) as [v' g1]. simpl.
  destruct (dict_map_rng f d g1) as [d' g2]. reflexivity.
Qed.

Lemma dict_map_rng_draws {V : Type} (f : V -> rng -> V * rng) (c : V -> nat) :
  (forall v, makes_draws random (c v) (f v)) ->
  forall d, makes_draws random (list_sum (map (fun kv => c (snd kv)) d)) (dict_map_rng f d).
Proof.
  intros Hf. induction d as [|[k v] d [IHs IHr]].
  - split; intros; reflexivity.
  - destruct (Hf v) as [Hs Hr]. split.
    + intros g. rewrite dict_map_rng_cons. simpl. rewrite IHs, Hs, advance_add. reflexivity.
    + intros g1 g2. rewrite !dict_map_rng_cons. simpl. rewrite !draws_add.
      intros E. apply app_eq_length in E; [|rewrite !draws_length; reflexivity].
      destruct E as [E1 E2]. rewrite (Hr g1 g2 E1). f_equal.
      apply IHr. rewrite !Hs. exact E2.
Qed.

Lemma dict_map_rng_keys {V : Type} (f : V -> rng -> V * rng) (d : dict V) (g : rng) :
  dict_keys (fst (dict_map_rng f d g)) = dict_keys d.
Proof.
  revert g. induction d as [|[k v] d IH]; intros g; [reflexivity|].
  rewrite dict_map_rng_cons. simpl. rewrite IH. reflexivity.
Qed.

Lemma list_sum_cons (x : nat) (l : list nat) : list_sum (x :: l) = x + list_sum l.
Proof. reflexivity. Qed.

Lemma list_sum_twos {V : Type} (l : list V) :
  list_sum (map (fun _ => 2) l) = 2 * length l.
Proof.
  induction l as [|x l IH]; simpl; [reflexivity|]. rewrite IH. lia.
Qed.

Lemma perturb_nbrs_draws (nbrs : dict edge_data) :
  makes_draws random (2 * length nbrs) (dict_map_rng (perturb_edge random) nbrs).
Proof.
  rewrite <- list_sum_twos.
  apply (dict_map_rng_draws (perturb_edge random) (fun _ => 2)).
  exact perturb_edge_draws.
Qed.

Lemma number_of_edges_sum (G : DiGraph) :
  list_sum (map (fun entry : node * dict edge_data => 2 * length (snd entry)) (adj G))
  = 2 * number_of_edges G.
Proof.
  unfold number_of_edges, edge_list.
  induction (adj G) as [|[u nbrs] a IH]; [reflexivity|].
  cbn [map flat_map fst snd]. rewrite list_sum_cons.
  rewrite length_app, length_map, IH. lia.
Qed.

Lemma simulate_weather_draws (G : DiGraph) :
  makes_draws random (2 * number_of_edges G) (simulate_weather_conditions random G).
Proof.
  rewrite <- number_of_edges_sum.
  destruct (dict_map_rng_draws (dict_map_rng (perturb_edge random))
              (fun nbrs => 2 * length nbrs) perturb_nbrs_draws (adj G)) as [Hs Hr].
  unfold simulate_weather_conditions. split.
  - intros g. rewrite <- Hs.
    destruct (dict_map_rng _ (adj G) g). reflexivity.
  - intros g1 g2 E. specialize (Hr g1 g2 E).
    destruct (dict_map_rng _ (adj G) g1), (dict_map_rng _ (adj G) g2).
    simpl in *. rewrite Hr. reflexivity.
Qed.

Lemma perturbed_app (rs1 rs2 : list float) (es1 es2 : list (node * node * edge_data)) :
  length rs1 = 2 * length es1 ->
  perturbed (rs1 ++ rs2) (es1 ++ es2) = perturbed rs1 es1 ++ perturbed rs2 es2.
Proof.
  revert rs1. induction es1 as [|[[u v] d] es1 IH]; intros rs1 L.
  - destruct rs1; [|discriminate]. simpl. destruct es2; reflexivity.
  - destruct rs1 as [|r1 [|r2 rs1]]; simpl in L; try lia.
    simpl. rewrite IH by lia. reflexivity.
Qed.

Lemma perturbed_frame (rs : list float) (es : list (node * node * edge_data)) :
  length rs = 2 * length es -> map frame (perturbed rs es) = map frame es.
Proof.
  revert rs. induction es as [|[[u v] d] es IH]; intros rs L.
  - destruct rs; reflexivity.
  - destruct rs as [|r1 [|r2 rs]]; simpl in L; try lia.
    simpl. rewrite IH by lia. reflexivity.
Qed.

Lemma perturb_nbrs_edges (u : node) (nbrs : dict edge_data) (g : rng) :
  map (fun nbr => (u, fst nbr, snd nbr)) (fst (dict_map_rng (perturb_edge random) nbrs g))
  = perturbed (draws random (2 * length nbrs) g)
              (map (fun nbr => (u, fst nbr, snd nbr)) nbrs).
Proof.
  revert g. induction nbrs as [|[v d] nbrs IH]; intros g; [reflexivity|].
  rewrite dict_map_rng_cons. simpl fst. simpl map. rewrite IH, perturb_edge_eq.
  replace (2 * length ((v, d) :: nbrs)) with (S (S (2 * length nbrs))) by (simpl; lia).
  simpl. destruct (random g) as [r1 g1]. simpl.
  destruct (random g1) as [r2 g2]. reflexivity.
Qed.

Lemma simulate_weather_edges (G : DiGraph) (g : rng) :
  edge_list (fst (simulate_weather_conditions random G g))
  = perturbed (draws random (2 * number_of_edges G) g) (edge_list G).
Proof.
  rewrite <- number_of_edges_sum.
  unfold simulate_weather_conditions, edge_list.
  destruct (dict_map_rng (dict_map_rng (perturb_edge random)) (adj G) g) as [adj' g'] eqn:E.
  simpl. replace adj' with (fst (dict_map_rng (dict_map_rng (perturb_edge random)) (adj G) g))
    by (rewrite E; reflexivity).
  clear E adj' g'. revert g.
  induction (adj G) as [|[u nbrs] a IH]; intros g; [reflexivity|].
  rewrite dict_map_rng_cons. cbn [map flat_map fst snd]. rewrite list_sum_cons.
  rewrite draws_add, perturbed_app by (rewrite draws_length, length_map; reflexivity).
  rewrite IH, perturb_nbrs_edges.
  rewrite (proj1 (perturb_nbrs_draws nbrs) g). reflexivity.
Qed.

Lemma simulate_weather_adjacency (G : DiGraph) (g : rng) :
  adjacency (fst (simulate_weather_conditions random G g)) = adjacency G.
Proof.
  unfold simulate_weather_conditions, adjacency.
  destruct (dict_map_rng (dict_map_rng (perturb_edge random)) (adj G) g) as [adj' g'] eqn:E.
  simpl. replace adj' with (fst (dict_map_rng (dict_map_rng (perturb_edge random)) (adj G) g))
    by (rewrite E; reflexivity).
  clear E adj' g'. revert g.
  induction (adj G) as [|[u nbrs] a IH]; intros g; [reflexivity|].
  rewrite dict_map_rng_cons. simpl. rewrite IH, dict_map_rng_keys. reflexivity.
Qed.

End WeatherFacts.

(** C7: one call of [simulate_weather_conditions], whatever the generator
    and its state, leaves the nodes with their attributes, the successors of
    every node and their order, and the distance and fuel of every edge as
    they were; it adds to the duration of every edge [uniform(0, 20)] of one
    draw of the generator and to its congestion [uniform(0, 0.2)] of the next
    draw, every edge taking two fresh draws in the order of the edge list, and
    it leaves the generator two draws per edge further.  (That a draw of
    [random()] is uniform on [0, 1) and independent of the others is the
    contract of the generator.) *)
Theorem weather_changes_duration_and_congestion_only
    (rng : Type) (random : rng -> float * rng) (G : DiGraph) (g : rng) :
  let G' := fst (simulate_weather_conditions random G g) in
  node_attr G' = node_attr G /\
  adjacency G' = adjacency G /\
  map frame (edge_list G') = map frame (edge_list G) /\
  edge_list G' = perturbed (draws random (2 * number_of_edges G) g) (edge_list G) /\
  snd (simulate_weather_conditions random G g) = advance random (2 * number_of_edges G) g.
Proof.
  cbv zeta. split; [|split; [|split; [|split]]].
  - unfold simulate_weather_conditions.
    destruct (dict_map_rng _ (adj G) g). reflexivity.
  - apply simulate_weather_adjacency.
  - rewrite simulate_weather_edges. apply perturbed_frame.
    rewrite draws_length. reflexivity.
  - apply simulate_weather_edges.
  - apply (proj1 (simulate_weather_draws rng random G)).
Qed.



(** ** Further properties *)

(** Between two nodes of the graph [dijkstra_multi_objective] always returns:
    scoring an enumerated path never fails on a missing edge.  When it
    returns no path the score is the initial infinity. *)
Theorem dijkstra_returns_on_nodes (G : DiGraph) (w : weight_vector) (start end_ : node) :
  has_node G start = true ->
  has_node G end_ = true ->
  exists best_path best_score,
    dijkstra_multi_objective G start end_ w = Returns (best_path, best_score) /\
    (best_path = None -> best_score = infinity).
Proof.
  intros Hs He.
  assert (Hpaths : exists paths, all_simple_paths G start end_ = Returns paths).
  { unfold all_simple_paths. rewrite Hs, He. simpl. eauto. }
  destruct Hpaths as [paths Hpaths].
  destruct (select_best_selected G w paths) as ([bp bs] & Hbest & _ & Hb).
  { intros q Hq. exact (enumerated_path_score G w start end_ paths q Hpaths Hq). }
  exists bp, bs. split.
  - unfold dijkstra_multi_objective. rewrite Hpaths. exact Hbest.
  - intros ->. exact Hb.
Qed.

Lemma dijkstra_returns_on_nodes_witness :
  all_simple_paths scenario_graph 1 4 = Returns [[1; 2; 4]; [1; 3; 4]]%Z /\
  exists best_path best_score,
    dijkstra_multi_objective scenario_graph 1 4 unit_weights
      = Returns (best_path, best_score) /\
    (best_path = None -> best_score = infinity).
Proof.
  split; [reflexivity|].
  apply (dijkstra_returns_on_nodes scenario_graph unit_weights 1 4); reflexivity.
Defined.

Lemma perturbed_length (rs : list float) (es : list (node * node * edge_data)) :
  length rs = 2 * length es -> length (perturbed rs es) = length es.
Proof.
  revert rs. induction es as [|[[u v] d] es IH]; intros rs L.
  - destruct rs; reflexivity.
  - destruct rs as [|r1 [|r2 rs]]; simpl in L; try lia.
    simpl. rewrite IH by lia. reflexivity.
Qed.

(** A second weather pass adds to the first: run on the graph the first
    call has left, [simulate_weather_conditions] perturbs the perturbed
    values again, with the draws that follow those of the first call, so that
    the delays and the congestion of the two passes add up. *)
Theorem weather_twice_compounds
    (rng : Type) (random : rng -> float * rng) (G : DiGraph) (g : rng) :
  let first := simulate_weather_conditions random G g in
  let second := simulate_weather_conditions random (fst first) (snd first) in
  let n := 2 * number_of_edges G in
  edge_list (fst second)
  = perturbed (draws random n (advance random n g))
              (perturbed (draws random n g) (edge_list G)).
Proof.
  cbv zeta.
  rewrite simulate_weather_edges. unfold number_of_edges at 1.
  rewrite simulate_weather_edges.
  rewrite perturbed_length by (rewrite draws_length; reflexivity).
  fold (number_of_edges G).
  rewrite (proj1 (simulate_weather_draws rng random G) g). reflexivity.
Qed.

(** On the scenario graph, with eight draws of 0.5 and then eight of 0.25:
    the durations are 10, 8, 10, 8 before, 20, 18, 20, 18 after one pass and
    25, 23, 25, 23 after two, and the duration of the edge from 1 to 2 after
    the second pass is strictly above that after the first. *)
Lemma weather_twice_compounds_witness :
  let first := simulate_weather_conditions tape_random scenario_graph example_tape in
  let second := simulate_weather_conditions tape_random (fst first) (snd first) in
  map (fun e => duration (snd e)) (edge_list scenario_graph) = [F 10; F 8; F 10; F 8] /\
  map (fun e => duration (snd e)) (edge_list (fst first)) = [F 20; F 18; F 20; F 18] /\
  map (fun e => duration (snd e)) (edge_list (fst second)) = [F 25; F 23; F 25; F 23] /\
  match get_edge (fst first) 1 2, get_edge (fst second) 1 2 with
  | Returns d1, Returns d2 => (to_float (duration d1) <? to_float (duration d2))%float
  | _, _ => false
  end = true.
Proof.
  cbv zeta. split; [reflexivity|]. split; [vm_compute; reflexivity|].
  split; [|vm_compute; reflexivity].
  assert (H := weather_twice_compounds (list float) tape_random scenario_graph example_tape).
  cbv zeta in H. rewrite H. vm_compute. reflexivity.
Defined.

(** ** The weather pass and the routes *)

Section WeatherRoutes.

Variable rng : Type.
Variable random : rng -> float * rng.

Lemma simulate_weather_node_attr (G : DiGraph) (g : rng) :
  node_attr (fst (simulate_weather_conditions random G g)) = node_attr G.
Proof.
  unfold simulate_weather_conditions.
  destruct (dict_map_rng _ (adj G) g). reflexivity.
Qed.

Lemma simulate_weather_adj (G : DiGraph) (g : rng) :
  adj (fst (simulate_weather_conditions random G g))
  = fst (dict_map_rng (dict_map_rng (perturb_edge random)) (adj G) g).
Proof.
  unfold simulate_weather_conditions.
  destruct (dict_map_rng _ (adj G) g). reflexivity.
Qed.

Lemma dict_get_map {V W : Type} (f : V -> W) (k : node) (d : dict V) :
  dict_get k (map (fun entry => (fst entry, f (snd entry))) d) = option_map f (dict_get k d).
Proof.
  induction d as [|[k' v] d IH]; simpl; [reflexivity|].
  destruct (Z.eqb k k'); [reflexivity | exact IH].
Qed.

Lemma successors_adjacency (G : DiGraph) (u : node) :
  successors G u = match dict_get u (adjacency G) with Some l => l | None => [] end.
Proof.
  unfold successors, adjacency. rewrite (dict_get_map (@dict_keys edge_data)).
  destruct (dict_get u (adj G)); reflexivity.
Qed.

Lemma simulate_weather_successors (G : DiGraph) (g : rng) (u : node) :
  successors (fst (simulate_weather_conditions random G g)) u = successors G u.
Proof.
  rewrite !successors_adjacency, simulate_weather_adjacency. reflexivity.
Qed.

(** The enumeration reads the graph through the successors only. *)
Lemma simple_paths_from_successors (G G' : DiGraph) (target : node) (budget : nat) :
  (forall u, successors G' u = successors G u) ->
  forall (current_path : path) (next_node : node),
    simple_paths_from G' target budget current_path next_node
    = simple_paths_from G target budget current_path next_node.
Proof.
  intros Hs. induction budget as [|b IH]; intros cur u; simpl; [reflexivity|].
  f_equal. destruct (Z.eqb u target); [reflexivity|].
  rewrite Hs. apply flat_map_ext. intros v.
  destruct (on_path v (cur ++ [u])); [reflexivity | apply IH].
Qed.

(** A lookup after a pass over a dictionary: a missing key is still missing,
    and a key that is there holds what the pass made of its value, at some
    state of the generator. *)
Lemma dict_map_rng_get {V : Type} (f : V -> rng -> V * rng) (k : node) (d : dict V) :
  forall g,
    match dict_get k d with
    | None => dict_get k (fst (dict_map_rng f d g)) = None
    | Some v => exists g', dict_get k (fst (dict_map_rng f d g)) = Some (fst (f v g'))
    end.
Proof.
  induction d as [|[k' v] d IH]; intros g; [reflexivity|].
  rewrite dict_map_rng_cons. simpl.
  destruct (Z.eqb k k'); [eauto | apply IH].
Qed.

(** An edge lookup after the weather pass fails where it failed before, and
    where it gave data before it gives data with the same distance and
    fuel. *)
Lemma get_edge_weather (G : DiGraph) (g : rng) (u v : node) :
  match get_edge G u v with
  | Raises e => get_edge (fst (simulate_weather_conditions random G g)) u v = Raises e
  | Returns d =>
      exists d', get_edge (fst (simulate_weather_conditions random G g)) u v = Returns d'
                 /\ weight d' = weight d /\ fuel d' = fuel d
  end.
Proof.
  unfold get_edge. rewrite simulate_weather_adj.
  assert (Hu := dict_map_rng_get (dict_map_rng (perturb_edge random)) u (adj G) g).
  destruct (dict_get u (adj G)) as [nbrs|]; [|rewrite Hu; reflexivity].
  destruct Hu as [g1 ->].
  assert (Hv := dict_map_rng_get (perturb_edge random) v nbrs g1).
  destruct (dict_get v nbrs) as [d|]; [|rewrite Hv; reflexivity].
  destruct Hv as [g2 ->]. eexists. split; [reflexivity|].
  rewrite perturb_edge_eq. split; reflexivity.
Qed.

End WeatherRoutes.

(** Two fetches that fail alike and return related values make collections
    that fail alike and return lists related element by element. *)
Lemma collect_related {A B : Type} (R : B -> B -> Prop) (f f' : A -> outcome B) (l : list A) :
  (forall a, match f a with
             | Raises e => f' a = Raises e
             | Returns b => exists b', f' a = Returns b' /\ R b b'
             end) ->
  match collect f l with
  | Raises e => collect f' l = Raises e
  | Returns bs => exists bs', collect f' l = Returns bs' /\ Forall2 R bs bs'
  end.
Proof.
  intros H. induction l as [|a l IH]; simpl.
  - exists []. split; [reflexivity | constructor].
  - specialize (H a). destruct (f a) as [b|e]; simpl.
    + destruct H as (b' & -> & Hb). simpl.
      destruct (collect f l) as [bs|e]; simpl.
      * destruct IH as (bs' & -> & Hbs). simpl.
        exists (b' :: bs'). split; [reflexivity | constructor; assumption].
      * rewrite IH. reflexivity.
    + rewrite H. reflexivity.
Qed.

Lemma sum_of_related (R : edge_data -> edge_data -> Prop) (f : edge_data -> num)
    (es es' : list edge_data) :
  (forall d d', R d d' -> f d' = f d) -> Forall2 R es es' -> sum_of f es' = sum_of f es.
Proof.
  intros Hf H. unfold sum_of. generalize (I 0) as acc.
  induction H as [|d d' es es' Hd H IH]; intros acc; simpl; [reflexivity|].
  rewrite (Hf d d' Hd). apply IH.
Qed.

(** The weather pass leaves the routes as they are: from any node to any
    node, the enumeration on the graph after the pass yields the same paths
    in the same order as on the graph before it, and fails in the same
    cases. *)
Theorem weather_keeps_paths
    (rng : Type) (random : rng -> float * rng) (G : DiGraph) (g : rng)
    (source target : node) :
  all_simple_paths (fst (simulate_weather_conditions random G g)) source target
  = all_simple_paths G source target.
Proof.
  unfold all_simple_paths, has_node, number_of_nodes.
  rewrite simulate_weather_node_attr.
  rewrite (simple_paths_from_successors G (fst (simulate_weather_conditions random G g))
             target (length (node_attr G) - 1)
             (simulate_weather_successors rng random G g)).
  reflexivity.
Qed.

(** The weather pass changes neither the total distance nor the fuel that
    [analyze_path] reports for a path, whatever the path: where the analysis
    failed before the pass it fails with the same exception after it, and
    where it returned metrics it returns metrics with the same total distance
    and the same fuel. *)
Theorem weather_keeps_distance_and_fuel
    (rng : Type) (random : rng -> float * rng) (G : DiGraph) (g : rng) (p : path) :
  match analyze_path G p with
  | Raises e => analyze_path (fst (simulate_weather_conditions random G g)) p = Raises e
  | Returns m =>
      exists m', analyze_path (fst (simulate_weather_conditions random G g)) p = Returns m'
                 /\ total_distance_km m' = total_distance_km m
                 /\ fuel_consumed_l m' = fuel_consumed_l m
  end.
Proof.
  set (G' := fst (simulate_weather_conditions random G g)).
  rewrite (analyze_path_along G p), (analyze_path_along G' p). unfold edges_along.
  assert (H := collect_related
                 (fun d d' => weight d' = weight d /\ fuel d' = fuel d)
                 (fun uv => get_edge G (fst uv) (snd uv))
                 (fun uv => get_edge G' (fst uv) (snd uv)) (steps p)
                 (fun uv => get_edge_weather rng random G g (fst uv) (snd uv))).
  destruct (collect _ (steps p)) as [es|e]; simpl.
  - destruct H as (es' & -> & Hes). simpl.
    unfold py_div. destruct (Z.of_nat (length p) - 1 =? 0)%Z; simpl; [reflexivity|].
    eexists. split; [reflexivity|]. simpl. split.
    + apply (sum_of_related _ weight es es' (fun d d' H => proj1 H) Hes).
    + apply (sum_of_related _ fuel es es' (fun d d' H => proj2 H) Hes).
  - rewrite H. reflexivity.
Qed.


(** ** The path that is returned *)

(** The path that [dijkstra_multi_objective] returns is a route of the
    graph: it starts at [start], ends at [end_], visits no node twice and goes
    along edges of the graph; and its score is a number strictly below
    infinity, never NaN. *)
Theorem best_path_is_a_route (G : DiGraph) (w : weight_vector) (start end_ : node)
    (p : path) (s : float) :
  dijkstra_multi_objective G start end_ w = Returns (Some p, s) ->
  NoDup p /\
  hd_error p = Some start /\
  last p start = end_ /\
  (forall u v, In (u, v) (steps p) -> exists d, get_edge G u v = Returns d) /\
  (s <? infinity)%float = true /\
  is_nan s = false.
Proof.
  intros Hrun.
  destruct (dijkstra_selected G w start end_ _ Hrun) as (paths & Hpaths & _ & Hin & _ & Hinf).
  simpl in Hin, Hinf.
  destruct (all_simple_paths_simple G start end_ paths p Hpaths Hin) as (Hnd & Hhd & Hlast).
  split; [exact Hnd|]. split; [exact Hhd|]. split; [exact Hlast|].
  split; [exact (all_simple_paths_linked G start end_ paths p Hpaths Hin)|].
  split; [exact Hinf | exact (proj1 (FloatOrder.ltb_not_nan _ _ Hinf))].
Qed.

Lemma best_path_is_a_route_witness :
  NoDup [1; 3; 4]%Z /\
  hd_error [1; 3; 4]%Z = Some 1%Z /\
  last [1; 3; 4]%Z 1%Z = 4%Z /\
  (forall u v, In (u, v) (steps [1; 3; 4]%Z) ->
               exists d, get_edge scenario_graph u v = Returns d) /\
  (256.1 <? infinity)%float = true /\
  is_nan 256.1%float = false.
Proof.
  apply (best_path_is_a_route scenario_graph unit_weights 1 4 [1; 3; 4]%Z 256.1%float).
  vm_compute. reflexivity.
Defined.

(** No path is returned exactly when no enumerated path scores strictly
    below infinity (each of them scores infinity or NaN, or there is none):
    the result is then [None] with the score infinity. *)
Theorem no_path_returned_iff (G : DiGraph) (w : weight_vector) (start end_ : node)
    (paths : list path) :
  all_simple_paths G start end_ = Returns paths ->
  (dijkstra_multi_objective G start end_ w = Returns (None, infinity) <->
   forall q, In q paths ->
     exists sq, path_score G w q = Returns sq /\ (sq <? infinity)%float = false).
Proof.
  intros Hpaths. split.
  - intros Hrun.
    destruct (dijkstra_selected G w start end_ _ Hrun) as (paths' & Hpaths' & Hall & _).
    rewrite Hpaths in Hpaths'. injection Hpaths' as <-. exact Hall.
  - intros Hall.
    destruct (select_best_selected G w paths) as ([bp bs] & Hbest & _ & Hb).
    { intros q Hq. destruct (Hall q Hq) as (sq & Hsq & _). eauto. }
    unfold dijkstra_multi_objective. rewrite Hpaths, Hbest.
    simpl in Hb. destruct bp as [p|].
    + destruct Hb as (Hin & Hp & Hinf).
      destruct (Hall p Hin) as (sq & Hsq & Hge).
      rewrite Hp in Hsq. injection Hsq as <-. congruence.
    + rewrite Hb. reflexivity.
Qed.

Lemma no_path_returned_iff_witness :
  dijkstra_multi_objective scenario_graph 1 4 (mk_weights infinity 1 1 1)
  = Returns (None, infinity).
Proof.
  apply (proj2 (no_path_returned_iff scenario_graph (mk_weights infinity 1 1 1) 1 4
                  [[1; 2; 4]; [1; 3; 4]]%Z eq_refl)).
  intros q [<-|[<-|[]]]; exists infinity; split; reflexivity.
Defined.

(** Between two different nodes, the path that [dijkstra_multi_objective]
    returns can always be analyzed: [analyze_path] raises nothing on it, the
    three totals it reports and the congestion sum [c] behind its average are
    the sums that the returned score weighs, and the average is [c] divided by
    the number of edges of the path. *)
Theorem best_path_can_be_analyzed (G : DiGraph) (w : weight_vector) (start end_ : node)
    (p : path) (s : float) :
  dijkstra_multi_objective G start end_ w = Returns (Some p, s) ->
  start <> end_ ->
  exists m c,
    analyze_path G p = Returns m /\
    avg_congestion m = (to_float c / float_of_Z (Z.of_nat (length p) - 1))%float /\
    s = (w_distance w * to_float (total_distance_km m) +
         w_duration w * to_float (flight_duration_min m) +
         w_fuel w * to_float (fuel_consumed_l m) + w_congestion w * to_float c)%float.
Proof.
  intros Hrun Hne.
  destruct (dijkstra_selected G w start end_ _ Hrun) as (paths & Hpaths & _ & Hin & Hp & _).
  simpl in Hin, Hp.
  destruct (all_simple_paths_simple G start end_ paths p Hpaths Hin) as (_ & Hhd & Hlast).
  assert (Hlen := two_nodes p start end_ Hhd Hlast Hne).
  rewrite path_score_along in Hp. rewrite analyze_path_along.
  destruct (edges_along G p) as [es|e]; [|discriminate].
  simpl in Hp. injection Hp as <-. simpl.
  unfold py_div. destruct (Z.eqb_spec (Z.of_nat (length p) - 1) 0) as [E|_]; [lia|].
  simpl. eexists. exists (sum_of congestion es).
  split; [reflexivity|]. split; reflexivity.
Qed.

Lemma best_path_can_be_analyzed_witness :
  exists m c,
    analyze_path scenario_graph [1; 3; 4]%Z = Returns m /\
    avg_congestion m
    = (to_float c / float_of_Z (Z.of_nat (length [1; 3; 4]%Z) - 1))%float /\
    256.1%float
    = (w_distance unit_weights * to_float (total_distance_km m) +
       w_duration unit_weights * to_float (flight_duration_min m) +
       w_fuel unit_weights * to_float (fuel_consumed_l m) +
       w_congestion unit_weights * to_float c)%float.
Proof.
  apply (best_path_can_be_analyzed scenario_graph unit_weights 1 4 [1; 3; 4]%Z 256.1%float).
  - vm_compute. reflexivity.
  - discriminate.
Defined.


(** ** The order of the nodes and of the successors *)

Lemma dict_mem_on_path {V : Type} (k : node) (d : dict V) :
  dict_mem k d = on_path k (dict_keys d).
Proof.
  unfold dict_mem, on_path. induction d as [|[k' v] d IH]; simpl; [reflexivity|].
  destruct (Z.eqb k k'); [reflexivity | exact IH].
Qed.

Lemma dict_keys_remember {V : Type} (k : node) (v : V) (d : dict V) :
  dict_keys (dict_set k v d) = remember (dict_keys d) k.
Proof.
  unfold remember. rewrite dict_keys_set, dict_mem_on_path. reflexivity.
Qed.

Lemma node_keys_add_node (G : DiGraph) (n : node) (a : node_data) :
  dict_keys (node_attr (add_node G n a)) = remember (dict_keys (node_attr G)) n.
Proof.
  unfold add_node. destruct (dict_mem n (adj G)); simpl; apply dict_keys_remember.
Qed.

Lemma node_keys_ensure_node (G : DiGraph) (n : node) :
  same_keys G ->
  dict_keys (node_attr (ensure_node G n)) = remember (dict_keys (node_attr G)) n.
Proof.
  intros H. unfold ensure_node. destruct (dict_mem n (adj G)) eqn:E; simpl.
  - unfold remember. rewrite <- dict_mem_on_path, H, E. reflexivity.
  - apply dict_keys_remember.
Qed.

Lemma node_keys_add_edge (G : DiGraph) (u v : node) (d : edge_data) :
  same_keys G ->
  dict_keys (node_attr (add_edge G u v d))
  = remember (remember (dict_keys (node_attr G)) u) v.
Proof.
  intros H. unfold add_edge. simpl.
  rewrite node_keys_ensure_node by (apply same_keys_ensure_node; exact H).
  rewrite node_keys_ensure_node by exact H. reflexivity.
Qed.

Lemma successors_add_node (G : DiGraph) (n : node) (a : node_data) (u : node) :
  successors (add_node G n a) u = successors G u.
Proof.
  unfold add_node, successors. destruct (dict_mem n (adj G)) eqn:E; simpl; [reflexivity|].
  rewrite dict_get_set. destruct (Z.eqb_spec u n) as [->|]; [|reflexivity].
  rewrite (dict_mem_get_none n (adj G) E). reflexivity.
Qed.

Lemma successors_ensure_node (G : DiGraph) (n u : node) :
  successors (ensure_node G n) u = successors G u.
Proof.
  unfold ensure_node, successors. destruct (dict_mem n (adj G)) eqn:E; simpl; [reflexivity|].
  rewrite dict_get_set. destruct (Z.eqb_spec u n) as [->|]; [|reflexivity].
  rewrite (dict_mem_get_none n (adj G) E). reflexivity.
Qed.

Lemma successors_add_edge (G : DiGraph) (a b : node) (d : edge_data) (u : node) :
  successors (add_edge G a b d) u
  = if Z.eqb u a then remember (successors G a) b else successors G u.
Proof.
  rewrite <- (successors_ensure_node G a a), <- (successors_ensure_node G a u).
  rewrite <- (successors_ensure_node (ensure_node G a) b a).
  rewrite <- (successors_ensure_node (ensure_node G a) b u).
  unfold add_edge. set (G1 := ensure_node (ensure_node G a) b).
  unfold successors. simpl. rewrite dict_get_set.
  destruct (Z.eqb u a); [|reflexivity].
  rewrite dict_keys_remember. destruct (dict_get a (adj G1)); reflexivity.
Qed.

Lemma airports_order (ns : list node_entry) :
  let G := fold_left put_node ns empty_graph in
  dict_keys (node_attr G) = first_occurrences (map e_id ns) /\
  (forall u, successors G u = []).
Proof.
  induction ns as [|e ns IH] using rev_ind; cbv zeta in *.
  - split; reflexivity.
  - rewrite fold_left_snoc. destruct IH as (Hk & Hs). split.
    + unfold put_node at 1. rewrite node_keys_add_node, Hk.
      unfold first_occurrences. rewrite map_app, fold_left_app. reflexivity.
    + intros u. unfold put_node at 1. rewrite successors_add_node. apply Hs.
Qed.

Lemma routes_order (G0 : DiGraph) (es : list edge_entry) :
  same_keys G0 ->
  let G := fold_left put_edge es G0 in
  same_keys G /\
  dict_keys (node_attr G)
  = fold_left remember (flat_map ends es) (dict_keys (node_attr G0)) /\
  (forall u, successors G u = fold_left remember (heads_from u es) (successors G0 u)).
Proof.
  intros H0. induction es as [|e es IH] using rev_ind; cbv zeta in *.
  - split; [exact H0|]. split; reflexivity.
  - rewrite fold_left_snoc. destruct IH as (Hk & Hn & Hs).
    split; [apply same_keys_add_edge; exact Hk|]. split.
    + unfold put_edge at 1. rewrite node_keys_add_edge by exact Hk. rewrite Hn.
      rewrite flat_map_app, fold_left_app. reflexivity.
    + intros u. unfold put_edge at 1. rewrite successors_add_edge.
      unfold heads_from. rewrite filter_app, map_app, fold_left_app. simpl.
      rewrite (Z.eqb_sym (e_from e) u).
      destruct (Z.eqb_spec u (e_from e)) as [->|]; simpl.
      * rewrite Hs. reflexivity.
      * apply Hs.
Qed.

Lemma collect_length {A B : Type} (f : A -> outcome B) (l : list A) (bs : list B) :
  collect f l = Returns bs -> length bs = length l.
Proof.
  revert bs. induction l as [|a l IH]; intros bs; simpl.
  - intros H. injection H as <-. reflexivity.
  - destruct (f a) as [b|e]; simpl; [|discriminate].
    destruct (collect f l) as [bs'|e]; simpl; [|discriminate].
    intros H. injection H as <-. simpl. rewrite (IH bs' eq_refl). reflexivity.
Qed.

Lemma airports_iterrows_length (airports : list airport_row) :
  length (airports_iterrows airports) = length airports.
Proof.
  unfold airports_iterrows. destruct (existsb has_name airports); apply length_map.
Qed.

Lemma routes_iterrows_length (routes : list route_row) :
  length (routes_iterrows routes) = length routes.
Proof.
  unfold routes_iterrows. destruct (forallb int_row routes); [reflexivity | apply length_map].
Qed.

(** The order in which [build_air_route_graph] lists the nodes and the
    successors, on which the order of the enumerated paths and so the choice
    among paths of equal score depend.  When [int] fails on no id, the two
    tables give one node id per airport row and two per route row; the nodes
    are the ids of the airport rows followed by the two ends of the route
    rows, and the successors of a node are the heads of the route rows that
    leave it, both in the order of the rows and each at its first place. *)
Theorem build_keeps_row_order (airports : list airport_row) (routes : list route_row)
    (ns : list node_entry) (es : list edge_entry) :
  node_entries airports = Returns ns ->
  edge_entries routes = Returns es ->
  length ns = length airports /\
  length es = length routes /\
  exists G,
    build_air_route_graph airports routes = Returns (G, airports) /\
    dict_keys (node_attr G)
    = first_occurrences (map e_id ns ++ flat_map ends es) /\
    (forall u, successors G u = first_occurrences (heads_from u es)).
Proof.
  intros Hns Hes.
  split; [rewrite <- airports_iterrows_length; exact (collect_length _ _ _ Hns)|].
  split; [rewrite <- routes_iterrows_length; exact (collect_length _ _ _ Hes)|].
  rewrite build_from_entries, Hns, Hes. simpl.
  eexists. split; [reflexivity|].
  destruct (airports_loaded ns) as (Hk & _).
  destruct (airports_order ns) as (Hn & Hs).
  destruct (routes_order (fold_left put_node ns empty_graph) es Hk)
    as (_ & Hn' & Hs').
  unfold graph_from. split.
  - rewrite Hn', Hn. unfold first_occurrences. rewrite fold_left_app. reflexivity.
  - intros u. rewrite Hs', Hs. reflexivity.
Qed.

Lemma build_keeps_row_order_witness :
  dict_keys (node_attr (graph_of gap_airports gap_routes)) = [1; 3; 2]%Z /\
  successors scenario_graph 1 = [2; 3]%Z.
Proof.
  destruct (build_keeps_row_order gap_airports gap_routes _ _ eq_refl eq_refl)
    as (_ & _ & G & HG & Hn & _).
  destruct (build_keeps_row_order scenario_airports scenario_routes _ _ eq_refl eq_refl)
    as (_ & _ & G' & HG' & _ & Hs).
  unfold scenario_graph, graph_of. rewrite HG, HG'. cbn [fst].
  rewrite Hn, Hs. split; reflexivity.
Defined.

(** ** The route request *)

Lemma node_name_has_node (G : DiGraph) (n : node) (x : name_cell) :
  node_name G n = Returns x -> has_node G n = true.
Proof.
  unfold node_name, has_node, dict_mem.
  destruct (dict_get n (node_attr G)); [reflexivity | discriminate].
Qed.

Lemma all_simple_paths_self (G : DiGraph) (n : node) :
  has_node G n = true -> all_simple_paths G n n = Returns [[n]].
Proof.
  intros H. unfold all_simple_paths. rewrite H. simpl.
  destruct (number_of_nodes G - 1) as [|b]; simpl; rewrite Z.eqb_refl; reflexivity.
Qed.

(** A request from an airport to itself never shows a route.  The
    enumeration yields the path of that one node, whose score is the weighted
    sum of four zeros; when that score is below infinity the path is selected
    and its analysis divides by zero, so the error dialog is shown, and
    otherwise no route is found. *)
Theorem same_airport_shows_no_route (G : DiGraph) (airports_df : list airport_row)
    (nm : string) (x : name_cell) (n : node) (w : weight_vector) :
  is_empty nm = false ->
  airport_id airports_df nm = Returns n ->
  node_name G n = Returns x ->
  find_route G airports_df nm nm (Some w)
  = if (weighted_sum w zero_totals <? infinity)%float
    then ErrorDialog ZeroDivisionError
    else NoRouteFound.
Proof.
  intros Hnm Hid Hname. unfold find_route. rewrite Hnm, Hid. simpl.
  unfold dijkstra_multi_objective.
  rewrite (all_simple_paths_self G n (node_name_has_node G n x Hname)).
  unfold select_best. simpl. unfold consider, path_score. simpl.
  destruct (weighted_sum w zero_totals <? infinity)%float; [|reflexivity].
  cbn [collect bind]. rewrite Hname. reflexivity.
Qed.

Lemma same_airport_shows_no_route_witness :
  find_route scenario_graph scenario_airports "A" "A" (Some unit_weights)
  = ErrorDialog ZeroDivisionError.
Proof.
  exact (same_airport_shows_no_route scenario_graph scenario_airports "A" (Name "A") 1
           unit_weights eq_refl eq_refl eq_refl).
Defined.

Lemma collect_in {A B : Type} (f : A -> outcome B) (l : list A) (bs : list B) (a : A) :
  collect f l = Returns bs -> In a l -> exists b, f a = Returns b /\ In b bs.
Proof.
  revert bs. induction l as [|a' l IH]; intros bs; simpl; [intros _ []|].
  destruct (f a') as [b'|e] eqn:E; simpl; [|discriminate].
  destruct (collect f l) as [bs'|e]; simpl; [|discriminate].
  intros H. injection H as <-. intros [->|Hin].
  - exists b'. split; [exact E | left; reflexivity].
  - destruct (IH bs' eq_refl Hin) as (b & Hb & Hbs). exists b. split; [exact Hb | right; exact Hbs].
Qed.

Lemma collect_from {A B : Type} (f : A -> outcome B) (l : list A) (bs : list B) (b : B) :
  collect f l = Returns bs -> In b bs -> exists a, In a l /\ f a = Returns b.
Proof.
  revert bs. induction l as [|a' l IH]; intros bs; simpl.
  - intros H. injection H as <-. intros [].
  - destruct (f a') as [b'|e] eqn:E; simpl; [|discriminate].
    destruct (collect f l) as [bs'|e]; simpl; [|discriminate].
    intros H. injection H as <-. intros [<-|Hin].
    + exists a'. split; [left; reflexivity | exact E].
    + destruct (IH bs' eq_refl Hin) as (a & Ha & Hfa).
      exists a. split; [right; exact Ha | exact Hfa].
Qed.

(** The id that the request finds for a name is the id of a node that the
    airports table declares: the row has a name, so the rows of [iterrows]
    keep the types of the columns, and the loading has read the same cell. *)
Lemma airport_id_declared (airports : list airport_row) (ns : list node_entry)
    (nm : string) (n : node) :
  node_entries airports = Returns ns ->
  airport_id airports nm = Returns n -> declared ns n = true.
Proof.
  unfold airport_id, node_entries. intros Hns.
  destruct (find (named nm) airports) as [row|] eqn:E; [|discriminate].
  intros Hid. apply find_some in E. destruct E as [Hin Hnamed].
  assert (Hname : has_name row = true).
  { unfold named in Hnamed. unfold has_name. destruct (a_name row); [reflexivity | discriminate]. }
  assert (Hsome : existsb has_name airports = true).
  { apply (proj2 (existsb_exists has_name airports)). exists row. split; assumption. }
  unfold airports_iterrows in Hns. rewrite Hsome in Hns.
  destruct (collect_in _ _ _ _ Hns (in_map _ airports row Hin)) as (e & He & Hens).
  unfold airport_entry in He. cbn [a_id] in He. rewrite Hid in He. simpl in He.
  injection He as <-.
  unfold declared. apply (proj2 (existsb_exists _ ns)).
  eexists. split; [exact Hens | apply Z.eqb_refl].
Qed.

(** When every airport row has a name, so does every entry. *)
Lemma entries_named (airports : list airport_row) (ns : list node_entry) (e : node_entry) :
  forallb has_name airports = true ->
  node_entries airports = Returns ns ->
  In e ns -> exists s, name (e_data e) = Name s.
Proof.
  unfold node_entries. intros Hall Hns Hin.
  destruct (collect_from _ _ _ _ Hns Hin) as (row' & Hrow' & He).
  unfold airport_entry in He. destruct (py_int (a_id row')); [|discriminate].
  simpl in He. injection He as <-. simpl.
  rewrite forallb_forall in Hall.
  unfold airports_iterrows in Hrow'. destruct (existsb has_name airports) eqn:Hsome.
  - apply in_map_iff in Hrow'. destruct Hrow' as (row & <- & Hrow). simpl.
    specialize (Hall row Hrow). unfold has_name in Hall.
    destruct (a_name row) as [s|]; [eauto | discriminate].
  - apply in_map_iff in Hrow'. destruct Hrow' as (row & _ & Hrow).
    assert (H : existsb has_name airports = true).
    { apply (proj2 (existsb_exists has_name airports)). exists row. split; [exact Hrow | exact (Hall row Hrow)]. }
    congruence.
Qed.

(** In the graph of the entries, a declared node has the name of its last
    entry. *)
Lemma declared_node_name (ns : list node_entry) (es : list edge_entry) (n : node) :
  declared ns n = true ->
  exists e, In e ns /\ node_name (graph_from ns es) n = Returns (name (e_data e)).
Proof.
  intros H. destruct (existsb_find_rev _ ns H) as [e He].
  destruct (graph_from_loaded ns es) as (_ & Hn & _).
  unfold node_name. rewrite Hn. unfold last_node. rewrite He.
  exists e. split; [exact (proj1 (find_rev_some _ ns e He)) | reflexivity].
Qed.

(** In the graph of the entries, an edge comes from a route row. *)
Lemma built_edge_route (ns : list node_entry) (es : list edge_entry)
    (u v : node) (d : edge_data) :
  get_edge (graph_from ns es) u v = Returns d ->
  exists e, In e es /\ e_from e = u /\ e_to e = v.
Proof.
  destruct (graph_from_loaded ns es) as (_ & _ & He).
  rewrite He. unfold last_edge.
  destruct (find _ (rev es)) as [e|] eqn:E; [|discriminate].
  intros _. apply find_rev_some in E. destruct E as [Hin Hrow].
  apply andb_prop in Hrow. destruct Hrow as [Hu Hv].
  exists e. split; [exact Hin|]. split; apply Z.eqb_eq; assumption.
Qed.

(** On the graph of the window, every node of a path along edges that starts
    at a declared node is declared, when the route rows run between declared
    nodes. *)
Lemma linked_nodes_declared
    (rng : Type) (random : rng -> float * rng)
    (ns : list node_entry) (es : list edge_entry) (g : rng)
    (p : path) (s n : node) :
  routes_declared ns es = true ->
  declared ns s = true ->
  hd_error p = Some s ->
  linked (fst (simulate_weather_conditions random (graph_from ns es) g)) p ->
  In n p -> declared ns n = true.
Proof.
  intros Hdecl Hs Hhd Hl Hin.
  destruct (nodes_of_path p n Hin) as [E|[u Hu]].
  - rewrite Hhd in E. injection E as <-. exact Hs.
  - destruct (Hl u n Hu) as [d' Hd'].
    assert (Hw := get_edge_weather rng random (graph_from ns es) g u n).
    destruct (get_edge (graph_from ns es) u n) as [d0|e] eqn:E0; [|congruence].
    destruct (built_edge_route ns es u n d0 E0) as (row & Hrow & _ & <-).
    unfold routes_declared in Hdecl. rewrite forallb_forall in Hdecl.
    specialize (Hdecl row Hrow). apply andb_prop in Hdecl. exact (proj2 Hdecl).
Qed.

Lemma build_returns (airports : list airport_row) (routes : list route_row)
    (G : DiGraph) (airports_df : list airport_row) :
  build_air_route_graph airports routes = Returns (G, airports_df) ->
  exists ns es,
    node_entries airports = Returns ns /\ edge_entries routes = Returns es /\
    G = graph_from ns es /\ airports_df = airports.
Proof.
  rewrite build_from_entries.
  destruct (node_entries airports) as [ns|e]; simpl; [|discriminate].
  destruct (edge_entries routes) as [es|e]; simpl; [|discriminate].
  intros H. injection H as <- <-. exists ns, es. repeat split; reflexivity.
Qed.

Lemma load_graph_returns (rng : Type) (random : rng -> float * rng)
    (airports : list airport_row) (routes : list route_row) (g g' : rng)
    (G : DiGraph) (airports_df : list airport_row) :
  load_graph random airports routes g = Returns (G, airports_df, g') ->
  exists ns es,
    node_entries airports = Returns ns /\ edge_entries routes = Returns es /\
    G = fst (simulate_weather_conditions random (graph_from ns es) g) /\
    airports_df = airports.
Proof.
  unfold load_graph.
  destruct (build_air_route_graph airports routes) as [[G0 df]|e] eqn:Hbuild;
    [|discriminate].
  destruct (build_returns airports routes G0 df Hbuild) as (ns & es & Hns & Hes & -> & ->).
  cbn [bind fst snd].
  destruct (simulate_weather_conditions random (graph_from ns es) g) as [G1 g1] eqn:Hsim.
  intros H. injection H as <- <- _. exists ns, es. rewrite Hsim.
  repeat split; assumption || reflexivity.
Qed.

(** Names that are all texts are looked up and joined without an error. *)
Lemma collect_texts {A : Type} (f : A -> outcome name_cell) (l : list A) :
  (forall a, In a l -> exists s, f a = Returns (Name s)) ->
  exists cs texts, collect f l = Returns cs /\ collect text_of cs = Returns texts.
Proof.
  induction l as [|a l IH]; intros H; simpl.
  - exists [], []. split; reflexivity.
  - destruct (H a (or_introl eq_refl)) as [s ->].
    destruct IH as (cs & texts & -> & Htexts); [intros a' Ha'; apply H; right; exact Ha'|].
    exists (Name s :: cs), (s :: texts). simpl. rewrite Htexts. split; reflexivity.
Qed.

(** When every airport row has a name and every route row runs between
    nodes of the airports table, a request between two airports with
    different ids, with weights that are numbers, never ends in the error
    dialog: on the graph that the window has loaded (built, then passed
    through the weather once) it shows either that there is no route, or the
    names of the nodes of the path that [dijkstra_multi_objective] returns
    together with the metrics of [analyze_path] for it. *)
Theorem request_between_declared_airports
    (rng : Type) (random : rng -> float * rng)
    (airports : list airport_row) (routes : list route_row) (g g' : rng)
    (G : DiGraph) (airports_df : list airport_row)
    (ns : list node_entry) (es : list edge_entry)
    (src_name dest_name : string) (s d : node) (w : weight_vector) :
  load_graph random airports routes g = Returns (G, airports_df, g') ->
  node_entries airports = Returns ns ->
  edge_entries routes = Returns es ->
  forallb has_name airports = true ->
  routes_declared ns es = true ->
  is_empty src_name = false ->
  is_empty dest_name = false ->
  airport_id airports_df src_name = Returns s ->
  airport_id airports_df dest_name = Returns d ->
  s <> d ->
  find_route G airports_df src_name dest_name (Some w) = NoRouteFound \/
  exists p score route_names texts m,
    dijkstra_multi_objective G s d w = Returns (Some p, score) /\
    collect (node_name G) p = Returns route_names /\
    analyze_path G p = Returns m /\
    collect text_of route_names = Returns texts /\
    find_route G airports_df src_name dest_name (Some w) = BestRoute texts m.
Proof.
  intros Hload Hns Hes Hnamed Hdecl Hsrc Hdest Hs Hd Hne.
  destruct (load_graph_returns rng random airports routes g g' G airports_df Hload)
    as (ns' & es' & Hns' & Hes' & -> & ->).
  rewrite Hns in Hns'. injection Hns' as <-.
  rewrite Hes in Hes'. injection Hes' as <-.
  set (G := fst (simulate_weather_conditions random (graph_from ns es) g)) in *.
  assert (Hname : forall n, declared ns n = true ->
                            exists x, node_name G n = Returns (Name x)).
  { intros n Hn. unfold node_name, G. rewrite simulate_weather_node_attr.
    destruct (declared_node_name ns es n Hn) as (e & He & Hnode).
    destruct (entries_named airports ns e Hnamed Hns He) as [x Hx].
    exists x. unfold node_name in Hnode. rewrite Hnode, Hx. reflexivity. }
  assert (Hsd := airport_id_declared airports ns src_name s Hns Hs).
  assert (Hdd := airport_id_declared airports ns dest_name d Hns Hd).
  destruct (Hname s Hsd) as [xs Hxs]. destruct (Hname d Hdd) as [xd Hxd].
  assert (Hpaths : exists paths, all_simple_paths G s d = Returns paths).
  { unfold all_simple_paths.
    rewrite (node_name_has_node G s _ Hxs), (node_name_has_node G d _ Hxd). simpl. eauto. }
  destruct Hpaths as [paths Hpaths].
  destruct (select_best_selected G w paths) as ([bp score] & Hbest & _ & Hb).
  { intros q Hq. exact (enumerated_path_score G w s d paths q Hpaths Hq). }
  assert (Hrun : dijkstra_multi_objective G s d w = Returns (bp, score)).
  { unfold dijkstra_multi_objective. rewrite Hpaths. exact Hbest. }
  unfold find_route. rewrite Hsrc, Hdest, Hs, Hd, Hrun. simpl.
  destruct bp as [p|]; [right | left; reflexivity].
  simpl in Hb. destruct Hb as (Hin & _ & _).
  destruct (all_simple_paths_simple G s d paths p Hpaths Hin) as (_ & Hhd & Hlast).
  assert (Hl := all_simple_paths_linked G s d paths p Hpaths Hin).
  assert (Hlen := two_nodes p s d Hhd Hlast Hne).
  destruct (collect_texts (node_name G) p) as (route_names & texts & Hnames & Htexts).
  { intros n Hn. apply Hname.
    exact (linked_nodes_declared rng random ns es g p s n Hdecl Hsd Hhd Hl Hn). }
  destruct (linked_edges_along G p Hl) as [eds Heds].
  assert (Hm : exists m, analyze_path G p = Returns m).
  { rewrite analyze_path_along, Heds. simpl. unfold py_div.
    destruct (Z.eqb_spec (Z.of_nat (length p) - 1) 0) as [E|_]; [lia|]. simpl. eauto. }
  destruct Hm as [m Hm].
  exists p, score, route_names, texts, m.
  split; [reflexivity|]. split; [exact Hnames|]. split; [exact Hm|].
  split; [exact Htexts|].
  destruct p as [|x p]; [simpl in Hlen; lia|].
  rewrite Hnames, Hm, Htexts. reflexivity.
Qed.

Lemma request_between_declared_airports_witness :
  let G := fst (simulate_weather_conditions tape_random scenario_graph example_tape) in
  find_route G scenario_airports "A" "D" (Some unit_weights) = NoRouteFound \/
  exists p score route_names texts m,
    dijkstra_multi_objective G 1 4 unit_weights = Returns (Some p, score) /\
    collect (node_name G) p = Returns route_names /\
    analyze_path G p = Returns m /\
    collect text_of route_names = Returns texts /\
    find_route G scenario_airports "A" "D" (Some unit_weights) = BestRoute texts m.
Proof.
  apply (request_between_declared_airports (list float) tape_random
           scenario_airports scenario_routes example_tape (repeat 0.25%float 8)
           (fst (simulate_weather_conditions tape_random scenario_graph example_tape))
           scenario_airports
           [ mk_node_entry 1 (mk_node_data (Name "A") (F 0, F 0));
             mk_node_entry 2 (mk_node_data (Name "B") (F 0, F 1));
             mk_node_entry 3 (mk_node_data (Name "C") (F 1, F 0));
             mk_node_entry 4 (mk_node_data (Name "D") (F 1, F 1)) ]
           [ mk_edge_entry 1 2 (mk_edge_data (F 100) (F 10) (F 20) (F 0.1));
             mk_edge_entry 2 4 (mk_edge_data (F 100) (F 10) (F 20) (F 0.1));
             mk_edge_entry 1 3 (mk_edge_data (F 150) (F 8) (F 25) (F 0.05));
             mk_edge_entry 3 4 (mk_edge_data (F 50) (F 8) (F 15) (F 0.05)) ]
           "A" "D" 1 4 unit_weights).
  - vm_compute. reflexivity.
  - vm_compute. reflexivity.
  - vm_compute. reflexivity.
  - reflexivity.
  - reflexivity.
  - reflexivity.
  - reflexivity.
  - reflexivity.
  - reflexivity.
  - discriminate.
Defined.

Lemma node_name_raises (G : DiGraph) (n : node) (e : exn) :
  node_name G n = Raises e -> e = KeyError.
Proof.
  unfold node_name. destruct (dict_get n (node_attr G)) as [[a|]|]; congruence.
Qed.

(** A route through a node without a name is never shown: when the path
    that [dijkstra_multi_objective] returns for the request visits a node that
    has no name in the graph (a node that only route rows mention), the
    request ends in the error dialog, with the [KeyError] of the name
    lookup. *)
Theorem route_through_unnamed_node_fails (G : DiGraph) (airports_df : list airport_row)
    (src_name dest_name : string) (s d : node) (w : weight_vector)
    (p : path) (score : float) (n : node) :
  is_empty src_name = false ->
  is_empty dest_name = false ->
  airport_id airports_df src_name = Returns s ->
  airport_id airports_df dest_name = Returns d ->
  dijkstra_multi_objective G s d w = Returns (Some p, score) ->
  In n p ->
  raised (node_name G n) = true ->
  find_route G airports_df src_name dest_name (Some w) = ErrorDialog KeyError.
Proof.
  intros Hsrc Hdest Hs Hd Hrun Hin Hraised.
  unfold find_route. rewrite Hsrc, Hdest, Hs, Hd, Hrun. simpl.
  destruct p as [|x p]; [destruct Hin|].
  rewrite (collect_raises (node_name G) KeyError (x :: p) n (node_name_raises G) Hin).
  - reflexivity.
  - destruct (node_name G n) as [nm|e] eqn:E; [discriminate|].
    f_equal. exact (node_name_raises G n e E).
Qed.

Lemma route_through_unnamed_node_fails_witness :
  dijkstra_multi_objective gap_graph 1 3 unit_weights = Returns (Some [1; 2; 3]%Z, 260.2%float) /\
  find_route gap_graph gap_airports "A" "C" (Some unit_weights)
  = ErrorDialog KeyError.
Proof.
  assert (Hrun : dijkstra_multi_objective gap_graph 1 3 unit_weights
                 = Returns (Some [1; 2; 3]%Z, 260.2%float)) by (vm_compute; reflexivity).
  split; [exact Hrun|].
  apply (route_through_unnamed_node_fails gap_graph gap_airports "A" "C" 1 3 unit_weights
           [1; 2; 3]%Z 260.2%float 2 eq_refl eq_refl eq_refl eq_refl Hrun).
  - simpl. auto.
  - reflexivity.
Defined.

Lemma text_of_raises (c : name_cell) (e : exn) : text_of c = Raises e -> e = TypeError.
Proof.
  destruct c; simpl; congruence.
Qed.

(** A route through an airport without a name is never shown: when a node
    of the path that [dijkstra_multi_objective] returns has an empty name
    cell, which is NaN, the names are looked up and the path is analyzed, and
    then joining the names raises a [TypeError]; the request ends in the
    error dialog. *)
Theorem route_through_nameless_airport_fails (G : DiGraph) (airports_df : list airport_row)
    (src_name dest_name : string) (s d : node) (w : weight_vector)
    (p : path) (score : float) (route_names : list name_cell) (m : metrics) :
  is_empty src_name = false ->
  is_empty dest_name = false ->
  airport_id airports_df src_name = Returns s ->
  airport_id airports_df dest_name = Returns d ->
  dijkstra_multi_objective G s d w = Returns (Some p, score) ->
  collect (node_name G) p = Returns route_names ->
  analyze_path G p = Returns m ->
  In NoName route_names ->
  find_route G airports_df src_name dest_name (Some w) = ErrorDialog TypeError.
Proof.
  intros Hsrc Hdest Hs Hd Hrun Hnames Hm Hin.
  unfold find_route. rewrite Hsrc, Hdest, Hs, Hd, Hrun. simpl.
  destruct p as [|x p].
  - simpl in Hnames. injection Hnames as <-. destruct Hin.
  - rewrite Hnames, Hm.
    rewrite (collect_raises text_of TypeError route_names NoName text_of_raises Hin);
      reflexivity.
Qed.

Lemma route_through_nameless_airport_fails_witness :
  let airports := [ mk_airport_row (I 1) (Name "A") (F 0) (F 0);
                    mk_airport_row (I 2) NoName (F 0) (F 1);
                    mk_airport_row (I 3) (Name "C") (F 1) (F 0) ] in
  let G := graph_of airports gap_routes in
  build_air_route_graph airports gap_routes = Returns (G, airports) /\
  collect (node_name G) [1; 2; 3]%Z = Returns [Name "A"; NoName; Name "C"] /\
  find_route G airports "A" "C" (Some unit_weights) = ErrorDialog TypeError.
Proof.
  cbv zeta. split; [vm_compute; reflexivity|]. split; [vm_compute; reflexivity|].
  apply (route_through_nameless_airport_fails _ _ "A" "C" 1 3 unit_weights
           [1; 2; 3]%Z 260.2%float [Name "A"; NoName; Name "C"]
           (mk_metrics (F 200) (F 20) (F 40) 0.1%float)).
  - reflexivity.
  - reflexivity.
  - vm_compute. reflexivity.
  - vm_compute. reflexivity.
  - vm_compute. reflexivity.
  - vm_compute. reflexivity.
  - vm_compute. reflexivity.
  - simpl. auto.
Defined.

(** ** The graph of the window *)

Lemma graph_from_closed (ns : list node_entry) (es : list edge_entry) :
  closed (graph_from ns es).
Proof.
  intros u v Hv.
  destruct (successors_get_edge _ u v Hv) as [d Hd].
  destruct (built_edge_route ns es u v d Hd) as (e & He & _ & Hto).
  destruct (graph_from_loaded ns es) as (_ & Hn & _).
  unfold has_node, dict_mem. rewrite Hn.
  destruct (last_node v ns); [reflexivity|].
  assert (E : endpoint_of v es = true).
  { unfold endpoint_of. apply (proj2 (existsb_exists _ es)). exists e. split; [exact He|].
    rewrite Hto, Z.eqb_refl. apply orb_true_r. }
  rewrite E. reflexivity.
Qed.

Lemma weather_closed (rng : Type) (random : rng -> float * rng) (G : DiGraph) (g : rng) :
  closed G -> closed (fst (simulate_weather_conditions random G g)).
Proof.
  intros Hc u v. rewrite simulate_weather_successors.
  unfold has_node. rewrite simulate_weather_node_attr. apply Hc.
Qed.

Lemma dict_map_rng_Forall {rng V : Type} (P : V -> Prop) (f : V -> rng -> V * rng)
    (d : dict V) :
  (forall v g, P v -> P (fst (f v g))) ->
  forall g, Forall (fun entry => P (snd entry)) d ->
            Forall (fun entry => P (snd entry)) (fst (dict_map_rng f d g)).
Proof.
  intros Hf. induction d as [|[k v] d IH]; intros g Hd; [constructor|].
  rewrite dict_map_rng_cons. simpl. inversion Hd as [|x l Hv Hd']; subst.
  constructor; [apply Hf; exact Hv | apply IH; exact Hd'].
Qed.

Lemma weather_well_keyed (rng : Type) (random : rng -> float * rng) (G : DiGraph) (g : rng) :
  well_keyed G -> well_keyed (fst (simulate_weather_conditions random G g)).
Proof.
  intros (Hn & Ha & Hs). unfold well_keyed.
  rewrite simulate_weather_node_attr, simulate_weather_adj, dict_map_rng_keys.
  split; [exact Hn|]. split; [exact Ha|].
  apply (dict_map_rng_Forall (fun nbrs => NoDup (dict_keys nbrs))); [|exact Hs].
  intros nbrs g0 H. rewrite dict_map_rng_keys. exact H.
Qed.

Lemma all_simple_paths_nodes (G : DiGraph) (source target : node) (paths : list path) :
  all_simple_paths G source target = Returns paths ->
  has_node G source = true /\ has_node G target = true.
Proof.
  unfold all_simple_paths.
  destruct (has_node G source); [|discriminate].
  destruct (has_node G target); [|discriminate].
  intros _. split; reflexivity.
Qed.

(** The graph that the window loads is well formed: the airports table is
    kept as it is, every node of the graph is listed once and every successor
    of a node once, and every successor of a node is itself a node of the
    graph. *)
Theorem loaded_graph_well_formed
    (rng : Type) (random : rng -> float * rng)
    (airports : list airport_row) (routes : list route_row) (g g' : rng)
    (G : DiGraph) (airports_df : list airport_row) :
  load_graph random airports routes g = Returns (G, airports_df, g') ->
  airports_df = airports /\ well_keyed G /\ closed G.
Proof.
  intros Hload.
  destruct (load_graph_returns rng random airports routes g g' G airports_df Hload)
    as (ns & es & _ & _ & -> & ->).
  split; [reflexivity|]. split.
  - apply weather_well_keyed. apply well_keyed_graph_from.
  - apply weather_closed. apply graph_from_closed.
Qed.

Lemma loaded_graph_well_formed_witness :
  let G := fst (simulate_weather_conditions tape_random scenario_graph example_tape) in
  scenario_airports = scenario_airports /\ well_keyed G /\ closed G.
Proof.
  apply (loaded_graph_well_formed (list float) tape_random scenario_airports
           scenario_routes example_tape (repeat 0.25%float 8)
           (fst (simulate_weather_conditions tape_random scenario_graph example_tape))
           scenario_airports).
  vm_compute. reflexivity.
Defined.

(** In a graph where every successor is a node, the path that
    [dijkstra_multi_objective] returns is not beaten by any route of the
    graph: every path from [start] to [end_] that goes along edges and repeats
    no node has a score, that score is not strictly below the returned one,
    and the returned one is less than or equal to it unless it is NaN. *)
Theorem best_path_beats_every_route (G : DiGraph) (w : weight_vector) (start end_ : node)
    (p : path) (s : float) (q : path) :
  closed G ->
  dijkstra_multi_objective G start end_ w = Returns (Some p, s) ->
  NoDup q ->
  hd_error q = Some start ->
  last q start = end_ ->
  (forall u v, In (u, v) (steps q) -> exists d, get_edge G u v = Returns d) ->
  exists sq, path_score G w q = Returns sq /\
             (sq <? s)%float = false /\
             (is_nan sq = false -> (s <=? sq)%float = true).
Proof.
  intros Hc Hrun Hnd Hhd Hlast Hl.
  destruct (dijkstra_selected G w start end_ _ Hrun) as (paths & Hpaths & Hall & _ & _ & Hinf).
  simpl in Hall, Hinf.
  destruct (all_simple_paths_nodes G start end_ paths Hpaths) as [Hs Ht].
  destruct (all_simple_paths_complete G start end_ q Hc Hs Ht Hnd Hhd Hlast Hl)
    as (paths' & Hpaths' & Hq).
  rewrite Hpaths in Hpaths'. injection Hpaths' as <-.
  destruct (Hall q Hq) as (sq & Hsq & Hge).
  exists sq. split; [exact Hsq|]. split; [exact Hge|].
  intros Hnan. apply FloatOrder.ltb_false_leb; [exact Hge | exact Hnan|].
  exact (proj1 (FloatOrder.ltb_not_nan _ _ Hinf)).
Qed.

Lemma best_path_beats_every_route_witness :
  exists sq, path_score scenario_graph unit_weights [1; 2; 4]%Z = Returns sq /\
             (sq <? 256.1)%float = false /\
             (is_nan sq = false -> (256.1 <=? sq)%float = true).
Proof.
  apply (best_path_beats_every_route scenario_graph unit_weights 1 4
           [1; 3; 4]%Z 256.1%float [1; 2; 4]%Z).
  - unfold scenario_graph.
    rewrite (graph_of_entries scenario_airports scenario_routes _ _ eq_refl eq_refl).
    apply graph_from_closed.
  - vm_compute. reflexivity.
  - repeat constructor; simpl; intuition discriminate.
  - reflexivity.
  - reflexivity.
  - intros u v [E|[E|[]]]; injection E as <- <-; eexists; reflexivity.
Defined.

